(** * VRNN notebook (examples/vrnn.ipynb): a shallow embedding

    The notebook composes four small networks (Prior, Generator,
    Inference, Recurrence) over two shared feature extractors, an
    auto-regressive loss, a per-epoch data loop and an image sampler.

    Tensor elements are machine floats and the random generator is the
    numerical library's: both are kept abstract, as the operations of a
    class, so that no law of exact arithmetic is ever used; of the
    library's batched kernels (the affine map, the recurrent cell) only
    the shape of the result is known.  Tensors are nested lists (batch
    axis outermost for a 2-D tensor), the parameters of all layers live
    in one store addressed by location (layers are objects, a layer held
    by two modules is one location), and code that samples or that can
    raise runs in a state-and-error monad: a forward pass raises where
    the library rejects the sizes of its operands. *)

From stdpp Require Import base option list gmap strings pretty.

#[local] Set Warnings "-clear-no-such-hyp".

Set Default Proof Using "Type".

(** ** The numerical library *)

(** Element type [num] of tensors with the kernels the notebook calls,
    and the generator state [rng] with the draws made by parameter
    initialisation and by distribution sampling.  The two batched
    kernels come with the shape of their result on operands whose sizes
    fit, as the library documents it; nothing is said of the values. *)
Class Torch (num rng : Type) := {
  nzero : num;
  nadd : num → num → num;
  (* mean of a 1-D tensor *)
  tmean : list num → num;
  relu : num → num;
  sigmoid : num → num;
  softplus : num → num;
  (* [F.linear(input, weight, bias)] on a batch: weight, bias, input *)
  linear : list (list num) → list num → list (list num) → list (list num);
  (* the kernel of [nn.GRUCell]: weight_ih, bias_ih, weight_hh, bias_hh,
     input, hidden *)
  gru_cell : list (list num) → list num → list (list num) → list num →
             list (list num) → list (list num) → list (list num);
  (* one draw of a fresh parameter *)
  init_draw : rng → num * rng;
  (* one reparameterised normal draw from (loc, scale) *)
  normal_draw : num → num → rng → num * rng;
  (* one Bernoulli draw from probs *)
  bernoulli_draw : num → rng → num * rng;
  (* per-sample negative log-likelihood of a row under Bernoulli(probs) *)
  bernoulli_nll : list num → list num → num;
  (* per-sample negative log-likelihood of a row under Normal(loc, scale) *)
  normal_nll : list num → list num → list num → num;
  (* per-sample KL between two diagonal normals (loc, scale) (loc, scale) *)
  normal_kl : list num → list num → list num → list num → num;
  (* (n, i) through a layer of weight (o, i) and bias (o) gives (n, o) *)
  linear_shape : ∀ W b x o i,
    length W = o → Forall (λ r, length r = i) W → length b = o →
    Forall (λ r, length r = i) x →
    length (linear W b x) = length x
    ∧ Forall (λ r, length r = o) (linear W b x);
  (* input (n, i) and hidden (n, h) through a cell of weights (3h, i) and
     (3h, h) give (n, h) *)
  gru_cell_shape : ∀ Wi bi Wh bh x h i n,
    length Wi = 3 * n → Forall (λ r, length r = i) Wi → length bi = 3 * n →
    length Wh = 3 * n → Forall (λ r, length r = n) Wh → length bh = 3 * n →
    length x = length h →
    Forall (λ r, length r = i) x → Forall (λ r, length r = n) h →
    length (gru_cell Wi bi Wh bh x h) = length h
    ∧ Forall (λ r, length r = n) (gru_cell Wi bi Wh bh x h);
}.

(** Host-language floats, as produced by [.item()] and accumulated by the
    data loop. *)
Class PyFloat (num pyf : Type) := {
  item : num → pyf;
  pof_nat : nat → pyf;
  padd : pyf → pyf → pyf;
  pmul : pyf → pyf → pyf;
  pdiv : pyf → pyf → pyf;
  (* the rendering of [{:.4f}] *)
  format_4f : pyf → string;
}.

(** ** A small instance on which the definitions run

    Integers for tensor elements and host floats, a binary counter for
    the generator: every draw reads the counter and advances it.  The
    affine map is the exact one; the cell moves every hidden entry by
    the sums of the sample's two affine images, within -2 .. 2. *)
Module Toy.
Definition toy_linear (W : list (list Z)) (b : list Z) (x : list (list Z))
  : list (list Z) :=
  (λ row, zip_with Z.add
            ((λ wr, foldr Z.add 0%Z (zip_with Z.mul wr row)) <$> W) b) <$> x.

Definition toy_gru_cell (Wi : list (list Z)) (bi : list Z) (Wh : list (list Z))
    (bh : list Z) (x h : list (list Z)) : list (list Z) :=
  zip_with
    (λ (g : list Z * list Z) (hr : list Z),
       (λ v, ((v + foldr Z.add 0 g.1 + foldr Z.add 0 g.2) `mod` 5 - 2)%Z) <$> hr)
    (zip (toy_linear Wi bi x) (toy_linear Wh bh h)) h.

#[export] Instance toy_torch : Torch Z N := {|
  nzero := 0%Z;
  nadd := Z.add;
  tmean l := (foldr Z.add 0 l `div` Z.of_nat (length l))%Z;
  relu := Z.max 0;
  sigmoid x := (if decide (0 ≤ x) then 1 else 0)%Z;
  softplus := Z.max 1;
  linear := toy_linear;
  gru_cell := toy_gru_cell;
  init_draw g := (Z.of_N (g `mod` 3) - 1, N.succ g)%Z;
  normal_draw l s g := (l + s * Z.of_N (g `mod` 2), N.succ g)%Z;
  bernoulli_draw p g := (p, N.succ g);
  bernoulli_nll p x := foldr Z.add 0%Z (zip_with (λ a b, Z.abs (a - b)) p x);
  normal_nll l s x := foldr Z.add 0%Z (zip_with (λ a b, Z.abs (a - b)) l x);
  normal_kl l1 s1 l2 s2 := foldr Z.add 0%Z (zip_with (λ a b, Z.abs (a - b)) l1 l2);
  linear_shape := ltac:(
    intros W b x o i HW _ Hb _; unfold toy_linear; split;
    [ by rewrite length_fmap
    | apply Forall_fmap, Forall_true; intros row; simpl;
      rewrite length_zip_with, length_fmap; lia ]);
  gru_cell_shape := ltac:(
    intros Wi bi Wh bh x h i n _ _ _ _ _ _ Hlen _ Hh; unfold toy_gru_cell, toy_linear;
    split;
    [ rewrite length_zip_with, length_zip, !length_fmap; lia
    | apply (Forall_zip_with_fst _ (λ _, True));
      [ by apply Forall_true
      | eapply Forall_impl; [exact Hh|]; intros hr Hr g _; simpl;
        by rewrite length_fmap ] ]);
|}.

#[export] Instance toy_pyfloat : PyFloat Z Z := {|
  item x := x;
  pof_nat := Z.of_nat;
  padd := Z.add;
  pmul := Z.mul;
  pdiv := Z.div;
  format_4f x := pretty x +:+ ".0000";
|}.
End Toy.

(** ** Hyper-parameters (cells 1, 2 and 4) *)

Definition batch_size : nat := 32.
Definition epochs : nat := 10.
Definition fixed_t_size : nat := 28.
Definition x_dim : nat := 28.
Definition h_dim : nat := 100.
Definition z_dim : nat := 64.
Definition t_max : nat := x_dim.

Section VRNN.
Context {num rng pyf : Type} `{!Torch num rng} `{!PyFloat num pyf}.

(** ** Tensors *)

Local Abbreviation vec := (list num).
Local Abbreviation mat := (list (list num)).
Local Abbreviation ten3 := (list (list (list num))).

(** [torch.zeros(b, n)] *)
Definition zeros (b n : nat) : mat := replicate b (replicate n nzero).

(** [torch.cat((a, b), dim=-1)] on two batches of rows: the rows are
    joined pairwise; batches of different sizes are rejected. *)
Definition cat_last (a b : mat) : option mat :=
  if decide (length a = length b) then Some (zip_with app a b) else None.

(** [t.transpose(0, 1)] on a 3-D tensor with a non-empty leading axis:
    the second axis comes first. *)
Definition transpose01 (t : ten3) : ten3 :=
  (λ k, (λ m, m !!! k) <$> t) <$> seq 0 (length (t !!! 0)).

Definition has_shape2 (b n : nat) (m : mat) : Prop :=
  length m = b ∧ Forall (λ r, length r = n) m.

Definition has_shape3 (a b c : nat) (t : ten3) : Prop :=
  length t = a ∧ Forall (has_shape2 b c) t.

(** Two batches with the same number of rows, of the same widths. *)
Definition same_shape {A B} (a : list (list A)) (b : list (list B)) : Prop :=
  (length <$> a) = (length <$> b).

#[export] Instance same_shape_dec {A B} (a : list (list A)) (b : list (list B)) :
  Decision (same_shape a b) := list_eq_dec _ _.

(** [torch.cat(x, dim=0)] on a list of 3-D tensors: they are joined
    along the leading axis; an empty list, and tensors whose other axes
    differ, are rejected. *)
Definition cat_first (x : list ten3) : option ten3 :=
  match x, concat x with
  | [], _ => None
  | _, [] => Some []
  | _, m :: ms => if decide (Forall (same_shape m) ms) then Some (m :: ms) else None
  end.

Definition map2d (f : num → num) (m : mat) : mat := (λ r : list num, f <$> r) <$> m.

(** Threading the generator through an element-wise draw. *)
Fixpoint draw_vec {A} (f : A → rng → num * rng) (l : list A) (g : rng)
  : vec * rng :=
  match l with
  | [] => ([], g)
  | a :: l' =>
      let '(v, g1) := f a g in
      let '(vs, g2) := draw_vec f l' g1 in
      (v :: vs, g2)
  end.

Fixpoint draw_mat {A} (f : A → rng → num * rng) (m : list (list A)) (g : rng)
  : mat * rng :=
  match m with
  | [] => ([], g)
  | r :: m' =>
      let '(v, g1) := draw_vec f r g in
      let '(vs, g2) := draw_mat f m' g1 in
      (v :: vs, g2)
  end.

(** ** Parameter store and layer objects *)

(** Parameters of one affine layer: [weight] is out x in, [bias] is out. *)
Record linear_w := { weight : list (list num); bias : list num }.

#[export] Instance linear_w_inhabited : Inhabited linear_w :=
  populate {| weight := []; bias := [] |}.

Definition loc := nat.

(** [nn.Linear]: an object naming its parameters in the store. *)
Record Linear := { in_features : nat; out_features : nat; l_params : loc }.

(** [nn.GRUCell]: input-to-hidden and hidden-to-hidden parameters. *)
Record GRUCell := {
  input_size : nat; hidden_size : nat; weight_ih : loc; weight_hh : loc }.

Definition store := list linear_w.

(** [nn.Linear.forward]: an input with a row that is not [in_features]
    wide is rejected (the weight keeps the [in_features] columns it was
    made with); otherwise the library's kernel runs on the layer's
    parameters. *)
Definition Linear_forward (σ : store) (l : Linear) (x : mat) : option mat :=
  let p := σ !!! l_params l in
  if decide (Forall (λ r, length r = in_features l) x)
  then Some (linear (weight p) (bias p) x) else None.

(** [nn.GRUCell.forward(input, hidden)]: the input must be
    [input_size] wide, the hidden state [hidden_size] wide, with one
    hidden row per input row; otherwise the call is rejected. *)
Definition GRUCell_forward (σ : store) (c : GRUCell) (input hidden : mat)
  : option mat :=
  let pi := σ !!! weight_ih c in
  let ph := σ !!! weight_hh c in
  if decide (length input = length hidden
             ∧ Forall (λ r, length r = input_size c) input
             ∧ Forall (λ r, length r = hidden_size c) hidden)
  then Some (gru_cell (weight pi) (bias pi) (weight ph) (bias ph) input hidden)
  else None.

(** ** Construction, sampling and failure: the monad *)

(** State passing with failure: a raised exception is [None]. *)
Definition ST (Σ A : Type) : Type := Σ → option (A * Σ).

#[export] Instance ST_ret {Σ} : MRet (ST Σ) := λ A a w, Some (a, w).
#[export] Instance ST_bind {Σ} : MBind (ST Σ) := λ A B f m w,
  match m w with
  | Some (a, w') => f a w'
  | None => None
  end.

Definition raise {Σ A} : ST Σ A := λ _, None.

Definition of_option {Σ A} (o : option A) : ST Σ A := λ w,
  match o with
  | Some a => Some (a, w)
  | None => None
  end.

(** The parameters of all layers and the state of the generator. *)
Record world := { w_store : store; w_gen : rng }.

Local Abbreviation M := (ST world).

(** Run a draw against the generator of the world. *)
Definition with_gen {A} (f : rng → A * rng) : M A := λ w,
  let '(a, g) := f (w_gen w) in
  Some (a, {| w_store := w_store w; w_gen := g |}).

(** Run a draw that can be refused. *)
Definition with_gen_opt {A} (f : rng → option (A * rng)) : M A := λ w,
  match f (w_gen w) with
  | Some (a, g) => Some (a, {| w_store := w_store w; w_gen := g |})
  | None => None
  end.

Definition get_store : M store := λ w, Some (w_store w, w).

(** Allocate the parameters of a fresh layer. *)
Definition alloc (p : linear_w) : M loc := λ w,
  Some (length (w_store w),
        {| w_store := w_store w ++ [p]; w_gen := w_gen w |}).

Definition fresh_params (o i : nat) : M linear_w :=
  W ← with_gen (draw_mat (λ _ : unit, init_draw) (replicate o (replicate i ())));
  b ← with_gen (draw_vec (λ _ : unit, init_draw) (replicate o ()));
  mret {| weight := W; bias := b |}.

(** [nn.Linear(i, o)] *)
Definition new_Linear (i o : nat) : M Linear :=
  p ← fresh_params o i;
  l ← alloc p;
  mret {| in_features := i; out_features := o; l_params := l |}.

(** [nn.GRUCell(i, h)]: three gates stacked in each parameter. *)
Definition new_GRUCell (i h : nat) : M GRUCell :=
  pi ← fresh_params (3 * h) i;
  li ← alloc pi;
  ph ← fresh_params (3 * h) h;
  lh ← alloc ph;
  mret {| input_size := i; hidden_size := h; weight_ih := li; weight_hh := lh |}.

(** ** Feature extractors (cell 4) *)

Record Phi_x := { Phi_x_fc0 : Linear }.
Record Phi_z := { Phi_z_fc0 : Linear }.

Definition new_Phi_x : M Phi_x :=
  fc0 ← new_Linear x_dim h_dim;
  mret {| Phi_x_fc0 := fc0 |}.

Definition new_Phi_z : M Phi_z :=
  fc0 ← new_Linear z_dim h_dim;
  mret {| Phi_z_fc0 := fc0 |}.

Definition Phi_x_forward (σ : store) (self : Phi_x) (x : mat) : option mat :=
  map2d relu <$> Linear_forward σ (Phi_x_fc0 self) x.

Definition Phi_z_forward (σ : store) (self : Phi_z) (z : mat) : option mat :=
  map2d relu <$> Linear_forward σ (Phi_z_fc0 self) z.

(** ** The four step modules (cell 5) *)

(** Parameters of the distribution a module's forward returns. *)
Record bernoulli_params := { probs : mat }.
Record normal_params := { loc_ : mat; scale : mat }.

Record Generator := {
  Generator_fc1 : Linear; Generator_fc2 : Linear; Generator_fc3 : Linear;
  Generator_f_phi_z : Phi_z }.

Record Prior := {
  Prior_fc1 : Linear; Prior_fc21 : Linear; Prior_fc22 : Linear }.

Record Inference := {
  Inference_fc1 : Linear; Inference_fc21 : Linear; Inference_fc22 : Linear;
  Inference_f_phi_x : Phi_x }.

Record Recurrence := {
  Recurrence_rnncell : GRUCell;
  Recurrence_f_phi_x : Phi_x; Recurrence_f_phi_z : Phi_z;
  Recurrence_hidden_size : nat }.

(** The constructors take the global extractors they capture. *)
Definition new_Generator (f_phi_z : Phi_z) : M Generator :=
  fc1 ← new_Linear (h_dim + h_dim) h_dim;
  fc2 ← new_Linear h_dim h_dim;
  fc3 ← new_Linear h_dim x_dim;
  mret {| Generator_fc1 := fc1; Generator_fc2 := fc2; Generator_fc3 := fc3;
          Generator_f_phi_z := f_phi_z |}.

Definition new_Prior : M Prior :=
  fc1 ← new_Linear h_dim h_dim;
  fc21 ← new_Linear h_dim z_dim;
  fc22 ← new_Linear h_dim z_dim;
  mret {| Prior_fc1 := fc1; Prior_fc21 := fc21; Prior_fc22 := fc22 |}.

Definition new_Inference (f_phi_x : Phi_x) : M Inference :=
  fc1 ← new_Linear (h_dim + h_dim) h_dim;
  fc21 ← new_Linear h_dim z_dim;
  fc22 ← new_Linear h_dim z_dim;
  mret {| Inference_fc1 := fc1; Inference_fc21 := fc21; Inference_fc22 := fc22;
          Inference_f_phi_x := f_phi_x |}.

Definition new_Recurrence (f_phi_x : Phi_x) (f_phi_z : Phi_z) : M Recurrence :=
  rnncell ← new_GRUCell (h_dim * 2) h_dim;
  mret {| Recurrence_rnncell := rnncell;
          Recurrence_f_phi_x := f_phi_x; Recurrence_f_phi_z := f_phi_z;
          Recurrence_hidden_size := hidden_size rnncell |}.

(** The forward passes, statement by statement; each raises where a
    call it makes does. *)
Definition Generator_forward (σ : store) (self : Generator) (z h_prev : mat)
  : option bernoulli_params :=
  pz ← Phi_z_forward σ (Generator_f_phi_z self) z;
  h ← cat_last pz h_prev;
  h ← map2d relu <$> Linear_forward σ (Generator_fc1 self) h;
  h ← map2d relu <$> Linear_forward σ (Generator_fc2 self) h;
  o ← Linear_forward σ (Generator_fc3 self) h;
  Some {| probs := map2d sigmoid o |}.

Definition Prior_forward (σ : store) (self : Prior) (h_prev : mat)
  : option normal_params :=
  h ← map2d relu <$> Linear_forward σ (Prior_fc1 self) h_prev;
  l ← Linear_forward σ (Prior_fc21 self) h;
  s ← Linear_forward σ (Prior_fc22 self) h;
  Some {| loc_ := l; scale := map2d softplus s |}.

Definition Inference_forward (σ : store) (self : Inference) (x h_prev : mat)
  : option normal_params :=
  px ← Phi_x_forward σ (Inference_f_phi_x self) x;
  h ← cat_last px h_prev;
  h ← map2d relu <$> Linear_forward σ (Inference_fc1 self) h;
  l ← Linear_forward σ (Inference_fc21 self) h;
  s ← Linear_forward σ (Inference_fc22 self) h;
  Some {| loc_ := l; scale := map2d softplus s |}.

Definition Recurrence_forward (σ : store) (self : Recurrence) (x z h_prev : mat)
  : option mat :=
  pz ← Phi_z_forward σ (Recurrence_f_phi_z self) z;
  px ← Phi_x_forward σ (Recurrence_f_phi_x self) x;
  i ← cat_last pz px;
  GRUCell_forward σ (Recurrence_rnncell self) i h_prev.

(** The module-level objects of cells 4 and 5, in creation order. *)
Record Globals := {
  f_phi_x : Phi_x; f_phi_z : Phi_z;
  prior : Prior; decoder : Generator; encoder : Inference;
  recurrence : Recurrence }.

Definition setup : M Globals :=
  f_phi_x ← new_Phi_x;
  f_phi_z ← new_Phi_z;
  prior ← new_Prior;
  decoder ← new_Generator f_phi_z;
  encoder ← new_Inference f_phi_x;
  recurrence ← new_Recurrence f_phi_x f_phi_z;
  mret {| f_phi_x := f_phi_x; f_phi_z := f_phi_z; prior := prior;
          decoder := decoder; encoder := encoder; recurrence := recurrence |}.

(** ** The probabilistic-programming layer

    Dictionaries of named tensors, distributions that read their
    conditioning variables from a dictionary and add their own
    variable to it, products of distributions, and losses. *)

Inductive value :=
| VVec (v : list num)
| VBatch (m : mat)
| VSeq (s : ten3).

Local Abbreviation env := (gmap string value).

(** Modelled from the spec: what a module's forward hands its
    distribution class (Normal, Bernoulli, Deterministic, not in the
    notebook): loc and scale, probs, or the value itself. *)
Inductive dparams :=
| PNormal (p : normal_params)
| PBernoulli (p : bernoulli_params)
| PDeterministic (v : mat).

(** Modelled from the spec: the framework's distribution object (the
    classes Normal, Bernoulli and Deterministic are not in the
    notebook): named conditioning variables, one named variable, and
    the module's forward giving the parameters. *)
Record Distribution := {
  cond_var : list string;
  var : string;
  forward : store → list value → option dparams }.

(** Modelled from the spec: the framework's look-up of named variables
    in a dictionary; a missing name raises. *)
Definition get_dict_values (x : env) (keys : list string) : option (list value) :=
  mapM (λ k, x !! k) keys.

(** Modelled from the spec: the parameters of a distribution under the
    conditioning variables found in the dictionary. *)
Definition get_params (σ : store) (d : Distribution) (x : env) : option dparams :=
  vals ← get_dict_values x (cond_var d);
  forward d σ vals.

(** Modelled from the spec: a reparameterised draw from
    Normal(loc, scale), one normal draw per element.  The model covers
    loc and scale of one shape; on others, which the library broadcasts
    or rejects, it gives no value. *)
Definition normal_rsample (p : normal_params) (g : rng) : option (mat * rng) :=
  if decide (same_shape (loc_ p) (scale p))
  then Some (draw_mat (λ ls : num * num, normal_draw ls.1 ls.2)
                      (zip_with zip (loc_ p) (scale p)) g)
  else None.

(** Modelled from the spec: drawing from the parameters (a normal draw
    per element from loc and scale, a Bernoulli draw per element from
    probs, the value itself for a deterministic variable). *)
Definition get_sample (p : dparams) : M mat :=
  match p with
  | PNormal p => with_gen_opt (normal_rsample p)
  | PBernoulli p => with_gen (draw_mat bernoulli_draw (probs p))
  | PDeterministic v => mret v
  end.

(** Modelled from the spec: the mean of the distribution. *)
Definition dist_mean (p : dparams) : mat :=
  match p with
  | PNormal p => loc_ p
  | PBernoulli p => probs p
  | PDeterministic v => v
  end.

(** Modelled from the spec: sampling reads the conditioning variables,
    draws, and returns the dictionary extended with the variable. *)
Definition sample_atom (d : Distribution) (x : env) : M env :=
  σ ← get_store;
  p ← of_option (get_params σ d x);
  v ← get_sample p;
  mret (<[var d := VBatch v]> x).

(** Modelled from the spec: the framework's [sample_mean], the mean of
    the distribution under the conditioning variables of the
    dictionary; nothing is drawn. *)
Definition sample_mean (d : Distribution) (x : env) : M mat :=
  σ ← get_store;
  p ← of_option (get_params σ d x);
  mret (dist_mean p).

(** Modelled from the spec: a product of distributions samples its
    factors in order, each seeing the variables of the ones before
    ("posterior sampling plus state update", "prior sampling,
    decoding, and state update"). *)
Inductive dist :=
| Atom (d : Distribution)
| Mul (p q : dist).

(** Modelled from the spec: sampling a product, factor after factor. *)
Fixpoint sample (p : dist) (x : env) : M env :=
  match p with
  | Atom d => sample_atom d x
  | Mul p q => x' ← sample p x; sample q x'
  end.

(** *** Losses *)

(** Modelled from the spec: a loss maps a dictionary to one value per
    sample of the batch. *)
Definition Loss := store → env → option (list num).

(** Modelled from the spec: the negative log-likelihood of each sample
    of [x] under Bernoulli(probs), by the numerical library's density.
    The model covers operands of one shape; on others, which the
    library broadcasts or rejects, it gives no value. *)
Definition bernoulli_nll_batch (p : bernoulli_params) (x : mat)
  : option (list num) :=
  if decide (same_shape (probs p) x)
  then Some (zip_with bernoulli_nll (probs p) x) else None.

(** Modelled from the spec: the negative log-likelihood of each sample
    of [x] under Normal(loc, scale), on operands of one shape. *)
Definition normal_nll_batch (p : normal_params) (x : mat) : option (list num) :=
  if decide (same_shape (loc_ p) (scale p) ∧ same_shape (loc_ p) x)
  then Some (zip_with (λ ls xi, normal_nll ls.1 ls.2 xi)
                      (zip (loc_ p) (scale p)) x)
  else None.

(** Modelled from the spec: the analytic divergence between two normal
    distributions, sample by sample, on operands of one shape. *)
Definition normal_kl_batch (a b : normal_params) : option (list num) :=
  if decide (same_shape (loc_ a) (scale a) ∧ same_shape (loc_ b) (scale b)
             ∧ same_shape (loc_ a) (loc_ b))
  then Some (zip_with (λ l1s1 l2s2, normal_kl l1s1.1 l1s1.2 l2s2.1 l2s2.2)
                      (zip (loc_ a) (scale a)) (zip (loc_ b) (scale b)))
  else None.

(** Modelled from the spec: the sum of two per-sample losses over the
    same batch. *)
Definition add_batch (a b : list num) : option (list num) :=
  if decide (length a = length b) then Some (zip_with nadd a b) else None.

(** Modelled from the spec: the negative log-likelihood of each sample
    under the parameters; a deterministic variable has none. *)
Definition log_prob_neg (p : dparams) (x : mat) : option (list num) :=
  match p with
  | PNormal p => normal_nll_batch p x
  | PBernoulli p => bernoulli_nll_batch p x
  | PDeterministic _ => None
  end.

(** Modelled from the spec: the framework's [NLL] loss of a
    distribution, the negative log-likelihood of its variable as found
    in the dictionary. *)
Definition NLL (d : Distribution) : Loss := λ σ x,
  p ← get_params σ d x;
  v ← x !! var d;
  match v with
  | VBatch m => log_prob_neg p m
  | _ => None
  end.

(** Modelled from the spec: the framework's [KullbackLeibler] loss,
    the analytic divergence between two normal distributions, sample by
    sample. *)
Definition KullbackLeibler (p q : Distribution) : Loss := λ σ x,
  pp ← get_params σ p x;
  qp ← get_params σ q x;
  match pp, qp with
  | PNormal a, PNormal b => normal_kl_batch a b
  | _, _ => None
  end.

(** Modelled from the spec: the framework's sum of two losses ([+]),
    sample by sample. *)
Definition AddLoss (l1 l2 : Loss) : Loss := λ σ x,
  a ← l1 σ x;
  b ← l2 σ x;
  add_batch a b.

(** Modelled from the spec: the framework's [.mean()] of a loss, its
    mean over the batch. *)
Definition MeanLoss (l : Loss) : store → env → option num := λ σ x,
  a ← l σ x;
  Some (tmean a).

(** *** The auto-regressive loss *)

(** Indexing a tensor along its leading axis. *)
Definition index (v : value) (t : nat) : option value :=
  match v with
  | VSeq s => VBatch <$> s !! t
  | VBatch m => VVec <$> m !! t
  | VVec _ => None
  end.

(** Modelled from the spec: the framework's restriction of the input
    dictionary to the declared names; all must be there. *)
Definition select (keys : list string) (x : env) : option env :=
  vals ← get_dict_values x keys;
  Some (list_to_map (zip keys vals)).

(** Modelled from the spec: the slice at step [t] of every series
    variable; a step past the end of a series raises. *)
Fixpoint slice_step_from_series (t : nat) (series_var : list string) (x : env)
  : option env :=
  match series_var with
  | [] => Some ∅
  | k :: ks =>
      v ← x !! k;
      vt ← index v t;
      rest ← slice_step_from_series t ks x;
      Some (<[k := vt]> rest)
  end.

(** Modelled from the spec: the copies between steps asked for by
    [update_value], here h into h_prev. *)
Fixpoint apply_update_value (upd : list (string * string)) (x : env) : option env :=
  match upd with
  | [] => Some x
  | (key, target) :: upd' =>
      v ← x !! key;
      apply_update_value upd' (<[target := v]> x)
  end.

(** Modelled from the spec: the framework's auto-regressive loss object,
    with the arguments the notebook passes to its constructor. *)
Record ARLoss := {
  ar_step_loss : store → env → option num;
  ar_step_fn : nat → env → M env;
  ar_max_iter : nat;
  ar_series_var : list string;
  ar_input_var : list string;
  ar_update_value : list (string * string) }.

(** Modelled from the spec: the framework's loop construct.  Step [t]
    slices the series variables at [t] into the dictionary, calls the
    step function on the dictionary and merges what it returns, adds
    the step loss to the running sum, and copies the updated
    variables for the next step; [n] steps remain. *)
Fixpoint ar_loop (L : ARLoss) (series_x : env) (n t : nat) (x : env) (acc : num)
  : M num :=
  match n with
  | 0 => mret acc
  | S n' =>
      sl ← of_option (slice_step_from_series t (ar_series_var L) series_x);
      let x := sl ∪ x in
      samples ← ar_step_fn L t x;
      let x := samples ∪ x in
      σ ← get_store;
      l ← of_option (ar_step_loss L σ x);
      let acc := nadd acc l in
      x ← of_option (apply_update_value (ar_update_value L) x);
      ar_loop L series_x n' (S t) x acc
  end.

(** Modelled from the spec: the estimate of the auto-regressive loss,
    the loop run [max_iter] times from a zero sum on the declared
    inputs. *)
Definition ARLoss_estimate (L : ARLoss) (x : env) : M num :=
  x ← of_option (select (ar_input_var L) x);
  series_x ← of_option (select (ar_series_var L) x);
  ar_loop L series_x (ar_max_iter L) 0 x nzero.

(** ** The model of the notebook (cells 5 to 7) *)

Section Notebook.
Variable G : Globals.

(** The four modules as distributions: the names given to the base
    class by each [__init__] ([cond_var], [var]) and the module's
    forward, called on the conditioning variables in that order; a
    forward that raises makes the call that needed the parameters
    raise. *)
Definition prior_dist : Distribution :=
  {| cond_var := ["h_prev"]; var := "z";
     forward σ vals :=
       match vals with
       | [VBatch h_prev] => PNormal <$> Prior_forward σ (prior G) h_prev
       | _ => None
       end |}.

Definition decoder_dist : Distribution :=
  {| cond_var := ["z"; "h_prev"]; var := "x";
     forward σ vals :=
       match vals with
       | [VBatch z; VBatch h_prev] =>
           PBernoulli <$> Generator_forward σ (decoder G) z h_prev
       | _ => None
       end |}.

Definition encoder_dist : Distribution :=
  {| cond_var := ["x"; "h_prev"]; var := "z";
     forward σ vals :=
       match vals with
       | [VBatch x; VBatch h_prev] =>
           PNormal <$> Inference_forward σ (encoder G) x h_prev
       | _ => None
       end |}.

Definition recurrence_dist : Distribution :=
  {| cond_var := ["x"; "z"; "h_prev"]; var := "h";
     forward σ vals :=
       match vals with
       | [VBatch x; VBatch z; VBatch h_prev] =>
           PDeterministic <$> Recurrence_forward σ (recurrence G) x z h_prev
       | _ => None
       end |}.

(** Cell 6: [encoder * recurrence] and [prior * decoder * recurrence]. *)
Definition encoder_with_recurrence : dist :=
  Mul (Atom encoder_dist) (Atom recurrence_dist).

Definition generate_from_prior : dist :=
  Mul (Mul (Atom prior_dist) (Atom decoder_dist)) (Atom recurrence_dist).

(** [vrnn_step_fn(t, x, h_prev, h=None, z=None)] called with the
    dictionary as keyword arguments: an unknown name, or a missing
    [x] or [h_prev], raises. *)
Definition vrnn_step_fn (t : nat) (kw : env) : M env :=
  if decide (dom kw ⊆ ({["x"; "h_prev"; "h"; "z"]} : gset string)) then
    match kw !! "x", kw !! "h_prev" with
    | Some x, Some h_prev =>
        sample encoder_with_recurrence (<["x" := x]> (<["h_prev" := h_prev]> ∅))
    | _, _ => raise
    end
  else raise.

(** Cell 7: [(NLL(decoder) + KullbackLeibler(encoder, prior)).mean()]
    and the auto-regressive loss built on it. *)
Definition step_loss : store → env → option num :=
  MeanLoss (AddLoss (NLL decoder_dist) (KullbackLeibler encoder_dist prior_dist)).

Definition loss : ARLoss :=
  {| ar_step_loss := step_loss;
     ar_step_fn := vrnn_step_fn;
     ar_max_iter := t_max;
     ar_series_var := ["x"];
     ar_input_var := ["x"; "h_prev"];
     ar_update_value := [("h", "h_prev")] |}.

(** *** The loss as the specification words it

    One step of the model on the row [x_t] from the hidden state
    [h_prev]: the latent drawn from the encoder, the next hidden
    state from the recurrence, and the generator after the draws;
    nothing when a forward pass raises. *)
Definition vrnn_step (σ : store) (x_t h_prev : mat) (g : rng)
  : option (mat * mat * rng) :=
  q ← Inference_forward σ (encoder G) x_t h_prev;
  '(z, g') ← normal_rsample q g;
  h ← Recurrence_forward σ (recurrence G) x_t z h_prev;
  Some (z, h, g').

(** Batch mean of the decoder's negative log-likelihood of the row
    plus the KL divergence between encoder and prior. *)
Definition per_step_loss (σ : store) (x_t z h_prev : mat) : option num :=
  d ← Generator_forward σ (decoder G) z h_prev;
  nll ← bernoulli_nll_batch d x_t;
  q ← Inference_forward σ (encoder G) x_t h_prev;
  p ← Prior_forward σ (prior G) h_prev;
  kl ← normal_kl_batch q p;
  l ← add_batch nll kl;
  Some (tmean l).

(** The per-step losses along a sequence: the hidden state made by
    one step is the previous hidden state of the next. *)
Fixpoint step_losses (σ : store) (xs : ten3) (h_prev : mat) (g : rng)
  : option (list num * rng) :=
  match xs with
  | [] => Some ([], g)
  | x_t :: xs' =>
      '(z, h, g1) ← vrnn_step σ x_t h_prev g;
      l ← per_step_loss σ x_t z h_prev;
      '(ls, g2) ← step_losses σ xs' h g1;
      Some (l :: ls, g2)
  end.

End Notebook.

(** ** The training driver (cells 8 to 10)

    The framework entry points act on a state [S] of their own (the
    parameters, the optimiser, the generator); what the driver prints
    and logs is collected in order. *)

Inductive event :=
| Print (s : string)
| AddScalar (tag : string) (v : pyf) (epoch : nat)
| AddImage (tag : string) (img : list ten3) (epoch : nat).

Section Driver.
Context {S : Type}.

Record dstate := { fw : S; out : list event }.

Local Abbreviation D := (ST dstate).

Definition lift_fw {A} (f : ST S A) : D A := λ d,
  match f (fw d) with
  | Some (a, s) => Some (a, {| fw := s; out := out d |})
  | None => None
  end.

Definition emit (e : event) : D () := λ d,
  Some ((), {| fw := fw d; out := out d ++ [e] |}).

(** Modelled from the spec: the framework's model object, with its
    [train] and [test] entry points returning the loss of a batch. *)
Record Model := {
  train : env → ST S num;
  test : env → ST S num }.

(** A data loader: the size of its dataset and one pass over it,
    yielding batches of images with their labels. *)
Record Loader := {
  dataset_len : nat;
  iterate : S → list (ten3 * list nat) * S }.

Variable G : Globals.

(** The local variables of [data_loop]; those assigned in the loop
    body are unbound before the first iteration and keep their last
    value afterwards. *)
Record locals := {
  mean_loss : pyf;
  l_data : option ten3;
  l_batch_size : option nat;
  l_x : option ten3;
  l_h_prev : option mat }.

(** The dictionary handed to [model.train] or [model.test]. *)
Definition batch_input (x : ten3) (h_prev : mat) : env :=
  <["x" := VSeq x]> (<["h_prev" := VBatch h_prev]> ∅).

(** One iteration of the loop of [data_loop]. *)
Definition data_loop_body (model : Model) (train_mode : bool)
    (fr : locals) (batch : ten3 * list nat) : D locals :=
  let data := batch.1 in
  let batch_size := length data in
  let x := transpose01 data in
  let h_prev := zeros batch_size (Recurrence_hidden_size (recurrence G)) in
  l ← lift_fw ((if train_mode then train model else test model)
                 (batch_input x h_prev));
  mret {| mean_loss := padd (mean_loss fr) (pmul (item l) (pof_nat batch_size));
          l_data := Some data; l_batch_size := Some batch_size;
          l_x := Some x; l_h_prev := Some h_prev |}.

Fixpoint data_loop_iter (model : Model) (train_mode : bool)
    (fr : locals) (batches : list (ten3 * list nat)) : D locals :=
  match batches with
  | [] => mret fr
  | batch :: rest =>
      fr' ← data_loop_body model train_mode fr batch;
      data_loop_iter model train_mode fr' rest
  end.

Definition data_loop (epoch : nat) (loader : Loader) (model : Model)
    (train_mode : bool) : D pyf :=
  let fr := {| mean_loss := pof_nat 0; l_data := None; l_batch_size := None;
               l_x := None; l_h_prev := None |} in
  batches ← lift_fw (λ s, Some (iterate loader s));
  fr ← data_loop_iter model train_mode fr batches;
  (* division by a zero length raises *)
  if decide (dataset_len loader = 0) then raise else
  let mean_loss := pdiv (mean_loss fr) (pof_nat (dataset_len loader)) in
  _ ← emit (Print (if train_mode
                   then "Epoch: " +:+ pretty epoch +:+ " Train loss: "
                          +:+ format_4f mean_loss
                   else "Test loss: " +:+ format_4f mean_loss));
  mret mean_loss.

(** The two framework calls of [plot_image_from_latent]. *)
Variable generate_from_prior_sample : env → ST S env.
Variable decoder_sample_mean : env → ST S mat.

(** The loop of [plot_image_from_latent], [n] steps remaining. *)
Fixpoint plot_loop (n : nat) (x : list ten3) (h_prev : value)
  : ST S (list ten3) :=
  match n with
  | 0 => mret x
  | Datatypes.S n' =>
      samples ← generate_from_prior_sample (<["h_prev" := h_prev]> ∅);
      z ← of_option (samples !! "z");
      hp ← of_option (samples !! "h_prev");
      x_t ← decoder_sample_mean (<["z" := z]> (<["h_prev" := hp]> ∅));
      h_prev ← of_option (samples !! "h");
      plot_loop n' (x ++ [[x_t]]) h_prev
  end.

Definition plot_image_from_latent (batch_size : nat) : ST S ten3 :=
  let h_prev := zeros batch_size (Recurrence_hidden_size (recurrence G)) in
  x ← plot_loop t_max [] (VBatch h_prev);
  x ← of_option (cat_first x);
  mret (transpose01 x).

(** The epoch loop of the last cell. *)
Definition epoch_body (train_loader test_loader : Loader) (vrnn : Model)
    (epoch : nat) : D () :=
  train_loss ← data_loop epoch train_loader vrnn true;
  test_loss ← data_loop epoch test_loader vrnn false;
  _ ← emit (AddScalar "train_loss" train_loss epoch);
  _ ← emit (AddScalar "test_loss" test_loss epoch);
  sample ← lift_fw (plot_image_from_latent batch_size);
  emit (AddImage "Image_from_latent" ((λ m, [m]) <$> sample) epoch).

Fixpoint epoch_loop (train_loader test_loader : Loader) (vrnn : Model)
    (es : list nat) : D () :=
  match es with
  | [] => mret ()
  | epoch :: es' =>
      _ ← epoch_body train_loader test_loader vrnn epoch;
      epoch_loop train_loader test_loader vrnn es'
  end.

Definition main (train_loader test_loader : Loader) (vrnn : Model) : D () :=
  epoch_loop train_loader test_loader vrnn (seq 1 epochs).
End Driver.

(** ** Observing the framework calls

    A model or a sampler wrapped so that the dictionary of every
    successful call is appended to a log kept next to its state. *)

Definition recording_call {S A} (f : env → ST S A) : env → ST (S * list env) A :=
  λ inp sl,
    match f inp sl.1 with
    | Some (a, s) => Some (a, (s, sl.2 ++ [inp]))
    | None => None
    end.


Definition recording {S} (m : Model (S := S)) : Model (S := S * list env) :=
  {| train := recording_call (train m); test := recording_call (test m) |}.

Definition logged_loader {S} (ld : Loader (S := S)) : Loader (S := S * list env) :=
  {| dataset_len := dataset_len ld;
     iterate := λ sl, ((iterate ld sl.1).1, ((iterate ld sl.1).2, sl.2)) |}.

(** ** The specification's own words, as definitions *)

(** The dictionary a batch of images is turned into: the rows leading,
    and a zero hidden state of width 100 for each sample. *)
Definition fresh_input (data : ten3) : env :=
  <["x" := VSeq (transpose01 data)]>
    (<["h_prev" := VBatch (zeros (length data) 100)]> ∅).

(** The per-batch losses and batch sizes of a run over the batches. *)
Fixpoint run_batches {S} (model : Model (S := S)) (train_mode : bool)
    (batches : list (ten3 * list nat)) : ST S (list (num * nat)) :=
  match batches with
  | [] => mret []
  | batch :: rest =>
      l ← (if train_mode then train model else test model) (fresh_input batch.1);
      ls ← run_batches model train_mode rest;
      mret ((l, length batch.1) :: ls)
  end.

(** Sum of loss times batch size over the batches, over the size of
    the dataset. *)
Definition weighted_mean (ls : list (num * nat)) (N : nat) : pyf :=
  pdiv (foldl (λ acc ln, padd acc (pmul (item ln.1) (pof_nat ln.2))) (pof_nat 0) ls)
       (pof_nat N).

(** What one epoch logs, as the specification words it: started in
    state [s], the train pass and then the test pass yield their
    per-batch losses, the sampler its image, and the events are the two
    printed lines, the two scalars carrying the weighted means of the
    two passes, and the image; [s'] is the state afterwards. *)
Definition epoch_logged {S} (model : Model (S := S)) (plot : ST S ten3)
    (train_loader test_loader : Loader (S := S)) (epoch : nat)
    (s : S) (evs : list event) (s' : S) : Prop :=
  ∃ ls1 s1 ls2 s2 img,
    run_batches model true (iterate train_loader s).1 (iterate train_loader s).2
      = Some (ls1, s1)
    ∧ run_batches model false (iterate test_loader s1).1 (iterate test_loader s1).2
      = Some (ls2, s2)
    ∧ plot s2 = Some (img, s')
    ∧ evs =
        [ Print ("Epoch: " +:+ pretty epoch +:+ " Train loss: "
                   +:+ format_4f (weighted_mean ls1 (dataset_len train_loader)));
          Print ("Test loss: "
                   +:+ format_4f (weighted_mean ls2 (dataset_len test_loader)));
          AddScalar "train_loss" (weighted_mean ls1 (dataset_len train_loader)) epoch;
          AddScalar "test_loss" (weighted_mean ls2 (dataset_len test_loader)) epoch;
          AddImage "Image_from_latent" ((λ m, [m]) <$> img) epoch ].

(** The epochs [es] in order, each starting in the state the one before
    ended in. *)
Fixpoint epochs_logged {S} (model : Model (S := S)) (plot : ST S ten3)
    (train_loader test_loader : Loader (S := S)) (es : list nat)
    (s : S) (evs : list event) (s' : S) : Prop :=
  match es with
  | [] => evs = [] ∧ s' = s
  | epoch :: es' =>
      ∃ evs1 s1 evs2,
        epoch_logged model plot train_loader test_loader epoch s evs1 s1
        ∧ epochs_logged model plot train_loader test_loader es' s1 evs2 s'
        ∧ evs = evs1 ++ evs2
  end.

(** ** The model object of the notebook (cell 7) *)

(** The state the framework keeps between calls: the parameters and the
    generator, and the state of the optimiser. *)
Record mstate {O : Type} := { m_world : world; m_opt : O }.
Global Arguments mstate : clear implicits.

(** Modelled from the spec: [vrnn = Model(loss, distributions=[encoder,
    decoder, prior, recurrence], optimizer=optim.Adam,
    optimizer_params={'lr': 1e-3})], the framework's model object on the
    loss of cell 7.  [test] evaluates the loss on the dictionary;
    [train] evaluates it and lets the optimiser update the parameters.
    Back-propagation and the optimiser are the library's:
    [optimizer_step] gives the parameters and the optimiser's state
    after the update, from those before, the dictionary, and the
    generator state the loss was evaluated from. *)
Definition vrnn {O} (G : Globals)
    (optimizer_step : O → store → env → rng → store * O) : Model (S := mstate O) :=
  {| test := λ x st,
       match ARLoss_estimate (loss G) x (m_world st) with
       | Some (l, w') => Some (l, {| m_world := w'; m_opt := m_opt st |})
       | None => None
       end;
     train := λ x st,
       match ARLoss_estimate (loss G) x (m_world st) with
       | Some (l, w') =>
           let '(σ', o') := optimizer_step (m_opt st) (w_store (m_world st)) x
                              (w_gen (m_world st)) in
           Some (l, {| m_world := {| w_store := σ'; w_gen := w_gen w' |};
                       m_opt := o' |})
       | None => None
       end |}.


(** One generation step from the hidden state: prior sampling,
    decoding (the mean and a draw of the row), state update. *)
Definition generate_step (G : Globals) (σ : store) (h_prev : mat) (g : rng)
  : option (mat * mat * rng) :=
  p ← Prior_forward σ (prior G) h_prev;
  '(z, g1) ← normal_rsample p g;
  d ← Generator_forward σ (decoder G) z h_prev;
  let mean := probs d in
  let '(x, g2) := draw_mat bernoulli_draw mean g1 in
  h ← Recurrence_forward σ (recurrence G) x z h_prev;
  Some (mean, h, g2).

(** The decoder means of [n] steps, each step starting from the hidden
    state the step before produced. *)
Fixpoint generate_means (G : Globals) (σ : store) (n : nat) (h_prev : mat) (g : rng)
  : option (ten3 * rng) :=
  match n with
  | 0 => Some ([], g)
  | Datatypes.S n' =>
      '(mean, h, g1) ← generate_step G σ h_prev g;
      '(ms, g2) ← generate_means G σ n' h g1;
      Some (mean :: ms, g2)
  end.

(** The names the step function accepts as keywords. *)
Definition step_names : gset string := {["x"; "h_prev"; "h"; "z"]}.

(** What the step function returns. *)
Definition step_env (x_t z h_prev h : mat) : env :=
  <["h" := VBatch h]> (<["z" := VBatch z]>
    (<["x" := VBatch x_t]> (<["h_prev" := VBatch h_prev]> ∅))).

Definition Linear_at (i o : nat) (l : loc) : Linear :=
  {| in_features := i; out_features := o; l_params := l |}.

(** The dictionary an iteration builds from its batch. *)
Definition body_input (G : Globals) (batch : ten3 * list nat) : env :=
  batch_input (transpose01 batch.1)
    (zeros (length batch.1) (Recurrence_hidden_size (recurrence G))).

(** ** Shapes of the parameters and of the module-level objects *)

(** Parameters shaped [o] x [i] with a bias of [o]. *)
Definition param_shape (o i : nat) (p : linear_w) : Prop :=
  length (weight p) = o
  ∧ Forall (λ r, length r = i) (weight p)
  ∧ length (bias p) = o.

(** The parameters a layer names are shaped as the layer declares. *)
Definition layer_wf (σ : store) (l : Linear) : Prop :=
  param_shape (out_features l) (in_features l) (σ !!! l_params l).

Definition cell_wf (σ : store) (c : GRUCell) : Prop :=
  param_shape (3 * hidden_size c) (input_size c) (σ !!! weight_ih c)
  ∧ param_shape (3 * hidden_size c) (hidden_size c) (σ !!! weight_hh c).

(** The eleven affine layers created by cells 4 and 5, in creation
    order, each listed once. *)
Definition layers (G : Globals) : list Linear :=
  [ Phi_x_fc0 (f_phi_x G); Phi_z_fc0 (f_phi_z G);
    Prior_fc1 (prior G); Prior_fc21 (prior G); Prior_fc22 (prior G);
    Generator_fc1 (decoder G); Generator_fc2 (decoder G); Generator_fc3 (decoder G);
    Inference_fc1 (encoder G); Inference_fc21 (encoder G); Inference_fc22 (encoder G) ].

(** The locations of all parameters: those of the layers and the two of
    the recurrent cell. *)
Definition param_locs (G : Globals) : list loc :=
  (l_params <$> layers G)
  ++ [ weight_ih (Recurrence_rnncell (recurrence G));
       weight_hh (Recurrence_rnncell (recurrence G)) ].

Definition store_wf (σ : store) (G : Globals) : Prop :=
  Forall (layer_wf σ) (layers G)
  ∧ cell_wf σ (Recurrence_rnncell (recurrence G)).

(** The objects cells 4 and 5 create when the store holds [n]
    parameters already. *)
Definition globals_at (n : nat) : Globals :=
  let phi_x := {| Phi_x_fc0 := Linear_at x_dim h_dim n |} in
  let phi_z := {| Phi_z_fc0 := Linear_at z_dim h_dim (n + 1) |} in
  {| f_phi_x := phi_x;
     f_phi_z := phi_z;
     prior := {| Prior_fc1 := Linear_at h_dim h_dim (n + 2);
                 Prior_fc21 := Linear_at h_dim z_dim (n + 3);
                 Prior_fc22 := Linear_at h_dim z_dim (n + 4) |};
     decoder := {| Generator_fc1 := Linear_at (h_dim + h_dim) h_dim (n + 5);
                   Generator_fc2 := Linear_at h_dim h_dim (n + 6);
                   Generator_fc3 := Linear_at h_dim x_dim (n + 7);
                   Generator_f_phi_z := phi_z |};
     encoder := {| Inference_fc1 := Linear_at (h_dim + h_dim) h_dim (n + 8);
                   Inference_fc21 := Linear_at h_dim z_dim (n + 9);
                   Inference_fc22 := Linear_at h_dim z_dim (n + 10);
                   Inference_f_phi_x := phi_x |};
     recurrence := {| Recurrence_rnncell :=
                        {| input_size := h_dim * 2; hidden_size := h_dim;
                           weight_ih := n + 11; weight_hh := n + 12 |};
                      Recurrence_f_phi_x := phi_x;
                      Recurrence_f_phi_z := phi_z;
                      Recurrence_hidden_size := h_dim |} |}.

(** The shapes asked of the thirteen parameters, in creation order. *)
Definition setup_dims : list (nat * nat) :=
  [ (h_dim, x_dim); (h_dim, z_dim);
    (h_dim, h_dim); (z_dim, h_dim); (z_dim, h_dim);
    (h_dim, h_dim + h_dim); (h_dim, h_dim); (x_dim, h_dim);
    (h_dim, h_dim + h_dim); (z_dim, h_dim); (z_dim, h_dim);
    (3 * h_dim, h_dim * 2); (3 * h_dim, h_dim) ].

(** ** What one epoch writes *)

(** The five events of an epoch, in order: the train line, the test
    line, the two scalars carrying the printed values, the image. *)
Definition epoch_events (epoch : nat) (evs : list event) : Prop :=
  ∃ v1 v2 img,
    evs = [ Print ("Epoch: " +:+ pretty epoch +:+ " Train loss: " +:+ format_4f v1);
            Print ("Test loss: " +:+ format_4f v2);
            AddScalar "train_loss" v1 epoch;
            AddScalar "test_loss" v2 epoch;
            AddImage "Image_from_latent" img epoch ].

(** ** The data loaders of cell 2

    [DataLoader(dataset, batch_size, shuffle=True)] with the library's
    defaults: one pass visits the dataset in a shuffled order, cut into
    consecutive batches of [batch_size] items, the last one shorter when
    the size does not divide; each batch stacks the images and lists the
    labels.  The shuffling is the library's, a parameter here. *)

Fixpoint chunks_fuel {A} (fuel bs : nat) (l : list A) : list (list A) :=
  match fuel with
  | 0 => []
  | Datatypes.S fuel' =>
      match l with
      | [] => []
      | _ => take bs l :: chunks_fuel fuel' bs (drop bs l)
      end
  end.

Definition chunks {A} (bs : nat) (l : list A) : list (list A) :=
  chunks_fuel (length l) bs l.

Definition collate (items : list (mat * nat)) : ten3 * list nat :=
  (fst <$> items, snd <$> items).

Definition DataLoader {S} (shuffle : S → list (mat * nat) → list (mat * nat) * S)
    (dataset : list (mat * nat)) (batch_size : nat) : Loader (S := S) :=
  {| dataset_len := length dataset;
     iterate := λ s, let '(order, s') := shuffle s dataset in
                     (collate <$> chunks batch_size order, s') |}.

(** [init_dataset(f_batch_size)] over the two image sets it loads. *)
Definition init_dataset {S} (shuffle : S → list (mat * nat) → list (mat * nat) * S)
    (mnist_train mnist_test : list (mat * nat)) (f_batch_size : nat)
  : Loader (S := S) * Loader (S := S) * nat :=
  (DataLoader shuffle mnist_train f_batch_size,
   DataLoader shuffle mnist_test f_batch_size,
   fixed_t_size).

End VRNN.

(** ** Concrete inputs on the small instance *)

Module ToyInputs.
Import Toy.

Definition toy_w0 : world (num := Z) (rng := N) := {| w_store := []; w_gen := 0%N |}.

Definition toy_G : Globals :=
  {| f_phi_x := {| Phi_x_fc0 := Linear_at 28 100 0 |};
     f_phi_z := {| Phi_z_fc0 := Linear_at 64 100 1 |};
     prior := {| Prior_fc1 := Linear_at 100 100 2;
                 Prior_fc21 := Linear_at 100 64 3;
                 Prior_fc22 := Linear_at 100 64 4 |};
     decoder := {| Generator_fc1 := Linear_at 200 100 5;
                   Generator_fc2 := Linear_at 100 100 6;
                   Generator_fc3 := Linear_at 100 28 7;
                   Generator_f_phi_z := {| Phi_z_fc0 := Linear_at 64 100 1 |} |};
     encoder := {| Inference_fc1 := Linear_at 200 100 8;
                   Inference_fc21 := Linear_at 100 64 9;
                   Inference_fc22 := Linear_at 100 64 10;
                   Inference_f_phi_x := {| Phi_x_fc0 := Linear_at 28 100 0 |} |};
     recurrence := {| Recurrence_rnncell :=
                        {| input_size := 200; hidden_size := 100;
                           weight_ih := 11; weight_hh := 12 |};
                      Recurrence_f_phi_x := {| Phi_x_fc0 := Linear_at 28 100 0 |};
                      Recurrence_f_phi_z := {| Phi_z_fc0 := Linear_at 64 100 1 |};
                      Recurrence_hidden_size := 100 |} |}.

Definition toy_w1 : world (num := Z) (rng := N) :=
  match setup toy_w0 with
  | Some (_, w) => w
  | None => toy_w0
  end.

(** One image row, one image, and a batch of one or two images. *)
Definition toy_row : list Z := replicate 14 1%Z ++ replicate 14 0%Z.
Definition toy_image : list (list Z) := replicate 28 toy_row.
Definition toy_batch1 : list (list (list Z)) := [toy_image].
Definition toy_batch2 : list (list (list Z)) := [toy_image; toy_image].

(** A sequence of 28 timesteps for a batch of one sample. *)
Definition toy_xs : list (list (list Z)) := replicate 28 [toy_row].
Definition toy_h0 : list (list Z) := zeros 1 100.

Definition toy_dict : gmap string value :=
  <["x" := VSeq toy_xs]> (<["h_prev" := VBatch toy_h0]> ∅).

(** The same sequence with a hidden state for two samples. *)
Definition toy_bad_dict : gmap string value :=
  <["x" := VSeq toy_xs]> (<["h_prev" := VBatch (zeros 2 100)]> ∅).

Definition toy_step_dict : gmap string value :=
  <["x" := VBatch [toy_row]]>
    (<["z" := VBatch [replicate 64 1%Z]]> (<["h_prev" := VBatch toy_h0]> ∅)).

(** A model whose state is a counter: the loss of a call is the counter,
    which the call advances. *)
Definition toy_model : Model (num := Z) (S := Z) :=
  {| train := λ _ s, Some (s, (s + 1)%Z);
     test := λ _ s, Some (s, (s + 1)%Z) |}.

(** A model that can only train: its test entry point raises. *)
Definition toy_train_only : Model (num := Z) (S := Z) :=
  {| train := λ _ s, Some (s, (s + 1)%Z);
     test := λ _ _, None |}.

(** A loader over three images, in a batch of two and a batch of one. *)
Definition toy_loader : Loader (num := Z) (S := Z) :=
  {| dataset_len := 3;
     iterate := λ s, ([(toy_batch2, [1; 2]); (toy_batch1, [3])], s) |}.

(** Batches of one sample for the four forward passes. *)
Definition toy_x : list (list Z) := [toy_row].
Definition toy_z : list (list Z) := [replicate 64 1%Z].

(** A shuffling that reverses the order, a dataset of three images, and
    a sampler and mean that return empty tensors. *)
Definition toy_shuffle (s : Z) (l : list (list (list Z) * nat))
  : list (list (list Z) * nat) * Z := (reverse l, s).

Definition toy_dataset : list (list (list Z) * nat) :=
  [(toy_image, 1); (toy_image, 2); (toy_image, 3)].

Definition toy_sampler (inp : gmap string (value (num := Z))) (s : Z)
  : option (gmap string (value (num := Z)) * Z) :=
  Some (<["z" := VBatch []]> (<["h" := VBatch []]> inp), s).

Definition toy_mean (inp : gmap string (value (num := Z))) (s : Z)
  : option (list (list Z) * Z) := Some ([], s).

Definition toy_d0 : dstate (num := Z) (pyf := Z) (S := Z) :=
  {| fw := 0%Z; out := [] |}.

Definition toy_main_end : dstate (num := Z) (pyf := Z) (S := Z) :=
  match main toy_G toy_sampler toy_mean toy_loader toy_loader toy_model toy_d0 with
  | Some (_, d) => d
  | None => toy_d0
  end.

Definition toy_logged_d0
  : dstate (num := Z) (pyf := Z) (S := Z * list (gmap string (value (num := Z)))) :=
  {| fw := (0%Z, []); out := [] |}.

Definition toy_logged_run :=
  data_loop toy_G 1 (logged_loader (DataLoader toy_shuffle toy_dataset 2))
    (recording toy_model) false toy_logged_d0.

Definition toy_logged_end
  : dstate (num := Z) (pyf := Z) (S := Z * list (gmap string (value (num := Z)))) :=
  match toy_logged_run with
  | Some (_, d) => d
  | None => toy_logged_d0
  end.

Definition toy_logged_value : Z :=
  match toy_logged_run with
  | Some (v, _) => v
  | None => 0%Z
  end.

(** The same pass in training mode, from a counter at 5. *)
Definition toy_train_run :=
  data_loop toy_G 1 (logged_loader toy_loader) (recording toy_model) true
    {| fw := (5%Z, []); out := [] |}.

Definition toy_train_end
  : dstate (num := Z) (pyf := Z) (S := Z * list (gmap string (value (num := Z)))) :=
  match toy_train_run with
  | Some (_, d) => d
  | None => toy_logged_d0
  end.

Definition toy_train_value : Z :=
  match toy_train_run with
  | Some (v, _) => v
  | None => 0%Z
  end.



End ToyInputs.

(** * Properties *)

Section Properties.
Context {num rng pyf : Type} `{!Torch num rng} `{!PyFloat num pyf}.

Local Abbreviation mat := (list (list num)).
Local Abbreviation ten3 := (list (list (list num))).
Local Abbreviation env := (gmap string (value (num := num))).



Ltac munfold :=
  unfold mbind, ST_bind, mret, ST_ret, of_option, get_store, with_gen, raise.

Ltac osimpl := cbn [fmap option_fmap option_map mbind option_bind].

Ltac map_lookup :=
  repeat first [ rewrite lookup_insert_eq
               | rewrite lookup_insert_ne by done ]; simpl.

Lemma bind_run {Σ A B} (m : ST Σ A) (f : A → ST Σ B) w a w' :
  m w = Some (a, w') → (m ≫= f) w = f a w'.
Proof. intros Hm. unfold mbind, ST_bind. by rewrite Hm. Qed.

(** *** Shapes of draws *)

Lemma draw_vec_length {A} (f : A → rng → num * rng) l g :
  length (draw_vec f l g).1 = length l.
Proof.
  revert g. induction l as [|a l IH]; intros g; [done|].
  simpl. destruct (f a g) as [v g1].
  specialize (IH g1). destruct (draw_vec f l g1) as [vs g2].
  simpl in *. by rewrite IH.
Qed.

Lemma draw_mat_length {A} (f : A → rng → num * rng) m g :
  length (draw_mat f m g).1 = length m.
Proof.
  revert g. induction m as [|r m IH]; intros g; [done|].
  simpl. destruct (draw_vec f r g) as [v g1].
  specialize (IH g1). destruct (draw_mat f m g1) as [vs g2].
  simpl in *. by rewrite IH.
Qed.

(** *** Construction *)


Lemma fresh_params_run o i w :
  ∃ p g, fresh_params o i w = Some (p, {| w_store := w_store w; w_gen := g |})
         ∧ length (weight p) = o ∧ length (bias p) = o.
Proof.
  unfold fresh_params. munfold.
  pose proof (draw_mat_length (λ _ : (), init_draw)
                (replicate o (replicate i ())) (w_gen w)) as HW.
  destruct (draw_mat _ _ _) as [W g1]. cbn [w_store w_gen].
  pose proof (draw_vec_length (λ _ : (), init_draw) (replicate o ()) g1) as Hb.
  destruct (draw_vec _ _ _) as [b g2]. cbn [w_store w_gen].
  eexists _, _. split; [reflexivity|].
  simpl in *. by rewrite HW, Hb, !length_replicate.
Qed.

Lemma new_Linear_run i o w :
  ∃ p g, new_Linear i o w =
           Some ({| in_features := i; out_features := o;
                    l_params := length (w_store w) |},
                 {| w_store := w_store w ++ [p]; w_gen := g |})
         ∧ length (weight p) = o ∧ length (bias p) = o.
Proof.
  destruct (fresh_params_run o i w) as (p & g & Hp & HW & Hb).
  exists p, g. split; [|done].
  unfold new_Linear. rewrite (bind_run _ _ _ _ _ Hp). reflexivity.
Qed.

Lemma new_GRUCell_run i h w :
  ∃ ext g, new_GRUCell i h w =
             Some ({| input_size := i; hidden_size := h;
                      weight_ih := length (w_store w);
                      weight_hh := Datatypes.S (length (w_store w)) |},
                   {| w_store := w_store w ++ ext; w_gen := g |}).
Proof.
  destruct (fresh_params_run (3 * h) i w) as (p1 & g1 & Hp1 & _).
  destruct (fresh_params_run (3 * h) h
              {| w_store := w_store w ++ [p1]; w_gen := g1 |})
    as (p2 & g2 & Hp2 & _).
  exists [p1; p2], g2.
  unfold new_GRUCell. rewrite (bind_run _ _ _ _ _ Hp1).
  erewrite bind_run by reflexivity. cbn [w_store w_gen].
  rewrite (bind_run _ _ _ _ _ Hp2).
  erewrite bind_run by reflexivity. cbn [mret ST_ret w_store w_gen].
  rewrite length_app, <- app_assoc. simpl.
  rewrite Nat.add_1_r. reflexivity.
Qed.

Ltac run_linear :=
  match goal with
  | |- context [(new_Linear ?i ?o ≫= _) ?w] =>
      let p := fresh "p" in
      let g := fresh "g" in
      let Hrun := fresh "Hrun" in
      let HW := fresh "HW" in
      let Hb := fresh "Hb" in
      destruct (new_Linear_run i o w) as (p & g & Hrun & HW & Hb);
      rewrite (bind_run _ _ _ _ _ Hrun); clear Hrun;
      cbn [w_store w_gen mret ST_ret]
  end.


Lemma new_Phi_x_run w :
  ∃ ext g, new_Phi_x w =
    Some ({| Phi_x_fc0 := Linear_at x_dim h_dim (length (w_store w)) |},
          {| w_store := w_store w ++ ext; w_gen := g |})
    ∧ length ext = 1.
Proof. unfold new_Phi_x. run_linear. by eexists [_], _. Qed.

Lemma new_Phi_z_run w :
  ∃ ext g, new_Phi_z w =
    Some ({| Phi_z_fc0 := Linear_at z_dim h_dim (length (w_store w)) |},
          {| w_store := w_store w ++ ext; w_gen := g |})
    ∧ length ext = 1.
Proof. unfold new_Phi_z. run_linear. by eexists [_], _. Qed.

Lemma new_Prior_run w :
  ∃ ext g, new_Prior w =
    Some ({| Prior_fc1 := Linear_at h_dim h_dim (length (w_store w));
             Prior_fc21 := Linear_at h_dim z_dim (1 + length (w_store w));
             Prior_fc22 := Linear_at h_dim z_dim (2 + length (w_store w)) |},
          {| w_store := w_store w ++ ext; w_gen := g |})
    ∧ length ext = 3.
Proof.
  unfold new_Prior. do 3 run_linear.
  eexists [_; _; _], _. rewrite !length_app, <- !app_assoc. simpl.
  rewrite !Nat.add_1_r. done.
Qed.

Lemma new_Generator_run f w :
  ∃ p1 p2 p3 g, new_Generator f w =
    Some ({| Generator_fc1 := Linear_at (h_dim + h_dim) h_dim (length (w_store w));
             Generator_fc2 := Linear_at h_dim h_dim (1 + length (w_store w));
             Generator_fc3 := Linear_at h_dim x_dim (2 + length (w_store w));
             Generator_f_phi_z := f |},
          {| w_store := w_store w ++ [p1; p2; p3]; w_gen := g |})
    ∧ length (weight p3) = x_dim ∧ length (bias p3) = x_dim.
Proof.
  unfold new_Generator. do 3 run_linear.
  eexists _, _, _, _. rewrite !length_app, <- !app_assoc. simpl.
  rewrite !Nat.add_1_r. done.
Qed.

Lemma new_Inference_run f w :
  ∃ ext g, new_Inference f w =
    Some ({| Inference_fc1 := Linear_at (h_dim + h_dim) h_dim (length (w_store w));
             Inference_fc21 := Linear_at h_dim z_dim (1 + length (w_store w));
             Inference_fc22 := Linear_at h_dim z_dim (2 + length (w_store w));
             Inference_f_phi_x := f |},
          {| w_store := w_store w ++ ext; w_gen := g |})
    ∧ length ext = 3.
Proof.
  unfold new_Inference. do 3 run_linear.
  eexists [_; _; _], _. rewrite !length_app, <- !app_assoc. simpl.
  rewrite !Nat.add_1_r. done.
Qed.

Lemma new_Recurrence_run fx fz w :
  ∃ ext g, new_Recurrence fx fz w =
    Some ({| Recurrence_rnncell :=
               {| input_size := h_dim * 2; hidden_size := h_dim;
                  weight_ih := length (w_store w);
                  weight_hh := Datatypes.S (length (w_store w)) |};
             Recurrence_f_phi_x := fx; Recurrence_f_phi_z := fz;
             Recurrence_hidden_size := h_dim |},
          {| w_store := w_store w ++ ext; w_gen := g |}).
Proof.
  unfold new_Recurrence.
  destruct (new_GRUCell_run (h_dim * 2) h_dim w) as (ext & g & Hrun).
  rewrite (bind_run _ _ _ _ _ Hrun). by eexists _, _.
Qed.

(** What running cells 4 and 5 establishes. *)
Lemma setup_run w0 :
  ∃ G w1, setup w0 = Some (G, w1)
    ∧ Inference_f_phi_x (encoder G) = f_phi_x G
    ∧ Recurrence_f_phi_x (recurrence G) = f_phi_x G
    ∧ Generator_f_phi_z (decoder G) = f_phi_z G
    ∧ Recurrence_f_phi_z (recurrence G) = f_phi_z G
    ∧ Recurrence_hidden_size (recurrence G) = h_dim
    ∧ hidden_size (Recurrence_rnncell (recurrence G)) = h_dim.
Proof.
  unfold setup.
  destruct (new_Phi_x_run w0) as (e1 & g1 & H1 & L1).
  rewrite (bind_run _ _ _ _ _ H1); clear H1.
  destruct (new_Phi_z_run {| w_store := w_store w0 ++ e1; w_gen := g1 |})
    as (e2 & g2 & H2 & L2).
  rewrite (bind_run _ _ _ _ _ H2); clear H2. cbn [w_store w_gen].
  rewrite <- app_assoc.
  match goal with |- context [(new_Prior ≫= _) ?w] =>
    destruct (new_Prior_run w) as (e3 & g3 & H3 & L3) end.
  rewrite (bind_run _ _ _ _ _ H3); clear H3. cbn [w_store w_gen].
  set (σ := (w_store w0 ++ e1 ++ e2) ++ e3).
  match goal with |- context [(new_Generator ?f ≫= _) ?w] =>
    destruct (new_Generator_run f w) as (p1 & p2 & p3 & g4 & H4 & HW & Hb) end.
  rewrite (bind_run _ _ _ _ _ H4); clear H4. cbn [w_store w_gen].
  match goal with |- context [(new_Inference ?f ≫= _) ?w] =>
    destruct (new_Inference_run f w) as (e5 & g5 & H5 & L5) end.
  rewrite (bind_run _ _ _ _ _ H5); clear H5. cbn [w_store w_gen].
  match goal with |- context [(new_Recurrence ?fx ?fz ≫= _) ?w] =>
    destruct (new_Recurrence_run fx fz w) as (e6 & g6 & H6) end.
  rewrite (bind_run _ _ _ _ _ H6); clear H6. cbn [w_store w_gen].
  eexists _, _. split; [reflexivity|].
  cbn. repeat split; reflexivity.
Qed.


(** *** Shared feature extractors *)


(** *** Construction: what the store looks like afterwards *)

Lemma draw_mat_rows {A} (f : A → rng → num * rng) (m : list (list A)) n g :
  Forall (λ r, length r = n) m →
  Forall (λ r, length r = n) (draw_mat f m g).1.
Proof.
  revert g. induction m as [|r m IH]; intros g Hm; [by constructor|].
  apply Forall_cons in Hm as [Hr Hm]. simpl.
  pose proof (draw_vec_length f r g) as Hv.
  destruct (draw_vec f r g) as [v g1].
  specialize (IH g1 Hm). destruct (draw_mat f m g1) as [vs g2].
  simpl in *. constructor; [congruence|done].
Qed.

Lemma fresh_params_shape o i (w : world (rng := rng)) :
  ∃ p g, fresh_params o i w = Some (p, {| w_store := w_store w; w_gen := g |})
         ∧ param_shape o i p.
Proof.
  unfold fresh_params. munfold.
  pose proof (draw_mat_length (λ _ : (), init_draw)
                (replicate o (replicate i ())) (w_gen w)) as HW.
  pose proof (draw_mat_rows (λ _ : (), init_draw)
                (replicate o (replicate i ())) i (w_gen w)) as Hrows.
  destruct (draw_mat _ _ _) as [W g1]. cbn [w_store w_gen].
  pose proof (draw_vec_length (λ _ : (), init_draw) (replicate o ()) g1) as Hb.
  destruct (draw_vec _ _ _) as [b g2]. cbn [w_store w_gen].
  eexists _, _. split; [reflexivity|].
  unfold param_shape. simpl in *.
  rewrite HW, Hb, !length_replicate. split; [done|]. split; [|done].
  apply Hrows, Forall_replicate. by rewrite length_replicate.
Qed.

Lemma new_Linear_shape i o (w : world (rng := rng)) :
  ∃ p g, new_Linear i o w =
           Some (Linear_at i o (length (w_store w)),
                 {| w_store := w_store w ++ [p]; w_gen := g |})
         ∧ param_shape o i p.
Proof.
  destruct (fresh_params_shape o i w) as (p & g & Hp & Hsh).
  exists p, g. split; [|done].
  unfold new_Linear. rewrite (bind_run _ _ _ _ _ Hp). reflexivity.
Qed.

Lemma bind_assoc {Σ A B C} (m : ST Σ A) (f : A → ST Σ B) (g : B → ST Σ C) w :
  ((m ≫= f) ≫= g) w = (m ≫= λ a, f a ≫= g) w.
Proof. unfold mbind, ST_bind. by destruct (m w) as [[a w']|]. Qed.

Lemma mret_bind {Σ A B} (a : A) (f : A → ST Σ B) w : (mret a ≫= f) w = f a w.
Proof. reflexivity. Qed.

Ltac setup_step :=
  first
    [ rewrite bind_assoc
    | rewrite mret_bind
    | match goal with
      | |- context [(new_Linear ?i ?o ≫= _) ?w] =>
          let p := fresh "p" in
          let g := fresh "g" in
          let Hrun := fresh "Hrun" in
          let Hsh := fresh "Hsh" in
          destruct (new_Linear_shape i o w) as (p & g & Hrun & Hsh);
          rewrite (bind_run _ _ _ _ _ Hrun); clear Hrun;
          cbn [w_store w_gen]
      | |- context [(fresh_params ?o ?i ≫= _) ?w] =>
          let p := fresh "p" in
          let g := fresh "g" in
          let Hrun := fresh "Hrun" in
          let Hsh := fresh "Hsh" in
          destruct (fresh_params_shape o i w) as (p & g & Hrun & Hsh);
          rewrite (bind_run _ _ _ _ _ Hrun); clear Hrun;
          cbn [w_store w_gen]
      | |- context [(alloc ?p ≫= _) ?w] =>
          erewrite (bind_run (alloc p)) by reflexivity; cbn [w_store w_gen]
      end ].

Lemma setup_explicit (w0 : world (rng := rng)) :
  ∃ ps g,
    setup w0 = Some (globals_at (length (w_store w0)),
                     {| w_store := w_store w0 ++ ps; w_gen := g |})
    ∧ Forall2 (λ d p, param_shape d.1 d.2 p) setup_dims ps.
Proof.
  unfold setup, new_Phi_x, new_Phi_z, new_Prior, new_Generator, new_Inference,
    new_Recurrence, new_GRUCell.
  repeat setup_step.
  eexists [_; _; _; _; _; _; _; _; _; _; _; _; _], _. split.
  - cbn [mret ST_ret]. rewrite <- !app_assoc. cbn [app].
    unfold globals_at, Linear_at. rewrite !length_app. cbn [length].
    repeat f_equal; lia.
  - unfold setup_dims. repeat (constructor; [done|]). constructor.
Qed.

(** Everything cells 4 and 5 leave behind: the objects, and the
    thirteen parameters appended to the store with their shapes. *)
Lemma setup_inv (w0 : world (rng := rng)) G w1 :
  setup w0 = Some (G, w1) →
  ∃ p0 p1 p2 p3 p4 p5 p6 p7 p8 p9 p10 p11 p12 g,
    G = globals_at (length (w_store w0))
    ∧ w1 = {| w_store := w_store w0
                ++ [p0; p1; p2; p3; p4; p5; p6; p7; p8; p9; p10; p11; p12];
              w_gen := g |}
    ∧ Forall2 (λ d p, param_shape d.1 d.2 p) setup_dims
        [p0; p1; p2; p3; p4; p5; p6; p7; p8; p9; p10; p11; p12].
Proof.
  intros Hs. destruct (setup_explicit w0) as (ps & g & Hs' & Hsh).
  rewrite Hs in Hs'. injection Hs' as -> ->.
  pose proof Hsh as Hsh'. unfold setup_dims in Hsh'.
  repeat match goal with
         | H : Forall2 _ (_ :: _) _ |- _ =>
             apply Forall2_cons_inv_l in H as (? & ? & _ & H & ->)
         end.
  apply Forall2_nil_inv_l in Hsh' as ->.
  by eexists _, _, _, _, _, _, _, _, _, _, _, _, _, _.
Qed.

(** Reading a freshly appended parameter back. *)
Ltac store_lookup :=
  repeat match goal with
         | |- context [(?σ ++ ?ps) !!! (length ?σ + ?k)] =>
             rewrite (lookup_total_app_r σ ps (length σ + k)) by lia;
             replace (length σ + k - length σ) with k by lia
         | |- context [(?σ ++ ?ps) !!! (length ?σ)] =>
             rewrite (lookup_total_app_r σ ps (length σ)) by lia;
             replace (length σ - length σ) with 0 by lia
         end;
  cbn [lookup_total list_lookup_total].

(** X1: the construction cells only append: the store afterwards is the
    store before followed by thirteen new parameters, so every
    parameter that existed is still where it was, unchanged, and every
    location the new modules name lies among the new ones. *)
Theorem setup_appends (w0 : world (rng := rng)) G w1 :
  setup w0 = Some (G, w1) →
  (∃ ps, w_store w1 = w_store w0 ++ ps ∧ length ps = 13)
  ∧ (∀ l, l < length (w_store w0) → w_store w1 !!! l = w_store w0 !!! l)
  ∧ Forall (λ l, length (w_store w0) ≤ l < length (w_store w1)) (param_locs G).
Proof.
  intros Hs.
  destruct (setup_inv w0 G w1 Hs)
    as (p0 & p1 & p2 & p3 & p4 & p5 & p6 & p7 & p8 & p9 & p10 & p11 & p12 & g
        & -> & -> & _).
  cbn [w_store]. split; [by eexists|]. split.
  - intros l Hl. by rewrite (lookup_total_app_l (w_store w0) _ l Hl).
  - unfold param_locs, layers, globals_at, Linear_at. cbn.
    rewrite length_app. cbn [length].
    repeat (constructor; [lia|]). constructor.
Qed.

(** X2: apart from the two shared extractors, no two layers share
    parameters: the thirteen locations named by the eleven layers and
    the recurrent cell are pairwise distinct. *)
Theorem setup_locations_distinct (w0 : world (rng := rng)) G w1 :
  setup w0 = Some (G, w1) →
  NoDup (param_locs G) ∧ length (param_locs G) = 13.
Proof.
  intros Hs.
  destruct (setup_inv w0 G w1 Hs)
    as (p0 & p1 & p2 & p3 & p4 & p5 & p6 & p7 & p8 & p9 & p10 & p11 & p12 & g
        & -> & -> & _).
  split; [|reflexivity].
  unfold param_locs, layers, globals_at, Linear_at. cbn.
  repeat (apply NoDup_cons; split;
          [rewrite ?elem_of_cons, elem_of_nil; lia|]).
  apply NoDup_nil_2.
Qed.

Lemma setup_store_wf (w0 : world (rng := rng)) G w1 :
  setup w0 = Some (G, w1) → store_wf (w_store w1) G.
Proof.
  intros Hs.
  destruct (setup_inv w0 G w1 Hs)
    as (p0 & p1 & p2 & p3 & p4 & p5 & p6 & p7 & p8 & p9 & p10 & p11 & p12 & g
        & -> & -> & Hsh).
  unfold setup_dims in Hsh.
  repeat match goal with
         | H : Forall2 _ (_ :: _) (_ :: _) |- _ =>
             apply Forall2_cons in H as [? H]
         end.
  cbn [fst snd w_store] in *.
  split.
  - unfold layers, globals_at, Linear_at. cbn.
    repeat (constructor;
            [unfold layer_wf; cbn [l_params in_features out_features];
             rewrite ?Nat.add_0_r; store_lookup; assumption|]).
    constructor.
  - unfold cell_wf, globals_at. cbn [recurrence Recurrence_rnncell hidden_size
      input_size weight_ih weight_hh].
    split; store_lookup; assumption.
Qed.

(** X3: after the construction cells every layer's weight has
    [out_features] rows of [in_features] columns and its bias
    [out_features] entries, with the sizes the notebook passes to the
    constructors, and the recurrent cell's two parameters stack three
    gates of the hidden width over the input and over the hidden
    width. *)
Theorem setup_shapes (w0 : world (rng := rng)) G w1 :
  setup w0 = Some (G, w1) →
  store_wf (w_store w1) G
  ∧ (in_features <$> layers G) = [28; 64; 100; 100; 100; 200; 100; 100; 200; 100; 100]
  ∧ (out_features <$> layers G) = [100; 100; 100; 64; 64; 100; 100; 28; 100; 64; 64]
  ∧ input_size (Recurrence_rnncell (recurrence G)) = 200
  ∧ hidden_size (Recurrence_rnncell (recurrence G)) = 100.
Proof.
  intros Hs. split; [by eapply setup_store_wf|].
  destruct (setup_inv w0 G w1 Hs)
    as (p0 & p1 & p2 & p3 & p4 & p5 & p6 & p7 & p8 & p9 & p10 & p11 & p12 & g
        & -> & -> & _).
  done.
Qed.

(** *** The forward passes on operands that fit *)

Lemma map2d_length f (x : mat) : length (map2d f x) = length x.
Proof. unfold map2d. by rewrite length_fmap. Qed.

Lemma map2d_rows f (x : mat) n :
  Forall (λ r, length r = n) x → Forall (λ r, length r = n) (map2d f x).
Proof.
  intros Hx. unfold map2d. apply Forall_fmap.
  eapply Forall_impl; [exact Hx|]. intros r Hr. simpl. by rewrite length_fmap.
Qed.

Lemma map2d_shape f (x : mat) b n :
  has_shape2 b n x → has_shape2 b n (map2d f x).
Proof.
  intros [Hlen Hrows]. split; [by rewrite map2d_length|by apply map2d_rows].
Qed.

Lemma zeros_shape b n : has_shape2 b n (zeros b n).
Proof.
  unfold zeros. split; [by rewrite length_replicate|].
  apply Forall_replicate. by rewrite length_replicate.
Qed.

Lemma Linear_forward_ok σ (l : Linear) (x : mat) b :
  layer_wf σ l → has_shape2 b (in_features l) x →
  ∃ y, Linear_forward σ l x = Some y ∧ has_shape2 b (out_features l) y.
Proof.
  intros (HW & HWr & Hb) [Hlen Hrows]. unfold Linear_forward.
  rewrite decide_True by done. eexists. split; [reflexivity|].
  destruct (linear_shape _ _ x _ _ HW HWr Hb Hrows) as [H1 H2].
  split; [congruence|done].
Qed.

Lemma zip_with_app_rows {A} (a c : list (list A)) n m :
  Forall (λ r, length r = n) a → Forall (λ r, length r = m) c →
  Forall (λ r, length r = n + m) (zip_with app a c).
Proof.
  intros Ha. revert c.
  induction Ha as [|r a Hr Ha IH]; intros c Hc; [constructor|].
  destruct Hc as [|r' c Hr' Hc]; [constructor|].
  cbn. constructor; [rewrite length_app; lia|by apply IH].
Qed.

Lemma cat_last_ok (a c : mat) b n m :
  has_shape2 b n a → has_shape2 b m c →
  ∃ y, cat_last a c = Some y ∧ has_shape2 b (n + m) y.
Proof.
  intros [Ha Hra] [Hc Hrc]. unfold cat_last.
  rewrite decide_True by congruence. eexists. split; [reflexivity|].
  split; [rewrite length_zip_with; lia|by apply zip_with_app_rows].
Qed.

Lemma GRUCell_forward_ok σ (c : GRUCell) (input hidden : mat) b :
  cell_wf σ c →
  has_shape2 b (input_size c) input → has_shape2 b (hidden_size c) hidden →
  ∃ h, GRUCell_forward σ c input hidden = Some h
       ∧ has_shape2 b (hidden_size c) h.
Proof.
  intros [(Wi & Wir & Bi) (Wh & Whr & Bh)] [Hi Hir] [Hh Hhr].
  unfold GRUCell_forward.
  rewrite decide_True by (split; [congruence|done]).
  eexists. split; [reflexivity|].
  destruct (gru_cell_shape _ _ _ _ input hidden _ _ Wi Wir Bi Wh Whr Bh
              ltac:(congruence) Hir Hhr) as [H1 H2].
  split; [congruence|done].
Qed.

Ltac fwd_linear Hwf Hsh :=
  match goal with
  | |- context [Linear_forward ?σ ?l ?x] =>
      let y := fresh "y" in
      let E := fresh "E" in
      let S := fresh "S" in
      destruct (Linear_forward_ok σ l x _ Hwf Hsh) as (y & E & S);
      rewrite E; clear E; osimpl;
      cbn [out_features Linear_at] in S
  end.

Ltac fwd_cat Ha Hc :=
  match goal with
  | |- context [cat_last ?a ?c] =>
      let y := fresh "y" in
      let E := fresh "E" in
      let S := fresh "S" in
      destruct (cat_last_ok a c _ _ _ Ha Hc) as (y & E & S);
      rewrite E; clear E; osimpl
  end.

(** The layers of the objects made at [n], one hypothesis each. *)
Lemma store_wf_globals_at (σ : store (num := num)) n :
  store_wf σ (globals_at n) →
  layer_wf σ (Linear_at x_dim h_dim n)
  ∧ layer_wf σ (Linear_at z_dim h_dim (n + 1))
  ∧ layer_wf σ (Linear_at h_dim h_dim (n + 2))
  ∧ layer_wf σ (Linear_at h_dim z_dim (n + 3))
  ∧ layer_wf σ (Linear_at h_dim z_dim (n + 4))
  ∧ layer_wf σ (Linear_at (h_dim + h_dim) h_dim (n + 5))
  ∧ layer_wf σ (Linear_at h_dim h_dim (n + 6))
  ∧ layer_wf σ (Linear_at h_dim x_dim (n + 7))
  ∧ layer_wf σ (Linear_at (h_dim + h_dim) h_dim (n + 8))
  ∧ layer_wf σ (Linear_at h_dim z_dim (n + 9))
  ∧ layer_wf σ (Linear_at h_dim z_dim (n + 10)).
Proof.
  intros [Hall _]. unfold layers in Hall.
  repeat (apply Forall_cons in Hall as [? Hall]).
  split_and!; match goal with H : layer_wf _ _ |- _ => exact H end.
Qed.

Lemma Prior_forward_ok (σ : store (num := num)) n (h_prev : mat) b :
  store_wf σ (globals_at n) → has_shape2 b 100 h_prev →
  ∃ p, Prior_forward σ (prior (globals_at n)) h_prev = Some p
       ∧ has_shape2 b 64 (loc_ p) ∧ has_shape2 b 64 (scale p).
Proof.
  intros Hwf Hh.
  destruct (store_wf_globals_at σ _ Hwf)
    as (L0 & L1 & L2 & L3 & L4 & L5 & L6 & L7 & L8 & L9 & L10).
  unfold Prior_forward. cbn [globals_at prior Prior_fc1 Prior_fc21 Prior_fc22].
  fwd_linear L2 Hh. apply (map2d_shape relu) in S.
  fwd_linear L3 S. fwd_linear L4 S.
  eexists. split; [reflexivity|]. cbn [loc_ scale].
  split; [exact S0|]. by apply map2d_shape.
Qed.

Lemma Inference_forward_ok (σ : store (num := num)) n (x h_prev : mat) b :
  store_wf σ (globals_at n) → has_shape2 b 28 x → has_shape2 b 100 h_prev →
  ∃ q, Inference_forward σ (encoder (globals_at n)) x h_prev = Some q
       ∧ has_shape2 b 64 (loc_ q) ∧ has_shape2 b 64 (scale q).
Proof.
  intros Hwf Hx Hh.
  destruct (store_wf_globals_at σ _ Hwf)
    as (L0 & L1 & L2 & L3 & L4 & L5 & L6 & L7 & L8 & L9 & L10).
  unfold Inference_forward, Phi_x_forward.
  cbn [globals_at encoder Inference_fc1 Inference_fc21 Inference_fc22
       Inference_f_phi_x Phi_x_fc0].
  fwd_linear L0 Hx. apply (map2d_shape relu) in S.
  fwd_cat S Hh. fwd_linear L8 S0. apply (map2d_shape relu) in S1.
  fwd_linear L9 S1. fwd_linear L10 S1.
  eexists. split; [reflexivity|]. cbn [loc_ scale].
  split; [exact S2|]. by apply map2d_shape.
Qed.

Lemma Generator_forward_ok (σ : store (num := num)) n (z h_prev : mat) b :
  store_wf σ (globals_at n) → has_shape2 b 64 z → has_shape2 b 100 h_prev →
  ∃ d, Generator_forward σ (decoder (globals_at n)) z h_prev = Some d
       ∧ has_shape2 b 28 (probs d).
Proof.
  intros Hwf Hz Hh.
  destruct (store_wf_globals_at σ _ Hwf)
    as (L0 & L1 & L2 & L3 & L4 & L5 & L6 & L7 & L8 & L9 & L10).
  unfold Generator_forward, Phi_z_forward.
  cbn [globals_at decoder Generator_fc1 Generator_fc2 Generator_fc3
       Generator_f_phi_z Phi_z_fc0].
  fwd_linear L1 Hz. apply (map2d_shape relu) in S.
  fwd_cat S Hh. fwd_linear L5 S0. apply (map2d_shape relu) in S1.
  fwd_linear L6 S1. apply (map2d_shape relu) in S2.
  fwd_linear L7 S2.
  eexists. split; [reflexivity|]. cbn [probs]. by apply map2d_shape.
Qed.

Lemma Recurrence_forward_ok (σ : store (num := num)) n (x z h_prev : mat) b :
  store_wf σ (globals_at n) →
  has_shape2 b 28 x → has_shape2 b 64 z → has_shape2 b 100 h_prev →
  ∃ h, Recurrence_forward σ (recurrence (globals_at n)) x z h_prev = Some h
       ∧ has_shape2 b 100 h.
Proof.
  intros Hwf Hx Hz Hh.
  destruct (store_wf_globals_at σ _ Hwf)
    as (L0 & L1 & L2 & L3 & L4 & L5 & L6 & L7 & L8 & L9 & L10).
  destruct Hwf as [_ Hcell].
  unfold Recurrence_forward, Phi_z_forward, Phi_x_forward.
  cbn [globals_at recurrence Recurrence_rnncell Recurrence_f_phi_x
       Recurrence_f_phi_z Phi_z_fc0 Phi_x_fc0] in *.
  fwd_linear L1 Hz. apply (map2d_shape relu) in S.
  fwd_linear L0 Hx. apply (map2d_shape relu) in S0.
  fwd_cat S S0.
  apply (GRUCell_forward_ok σ _ y1 h_prev b Hcell); [exact S1|exact Hh].
Qed.

(** X4: with the objects of the construction cells, parameters shaped
    as constructed, and inputs of the declared widths (x of 28, z of 64,
    h_prev of 100, one row per sample), no forward pass meets a size
    mismatch: each returns; loc and scale of Prior and of Inference are
    both (b, 64), the probabilities of Generator are (b, 28), and the
    hidden state returned by Recurrence is (b, 100). *)
Theorem forward_sizes_fit (w0 : world (rng := rng)) G w1 σ (x z h_prev : mat) b :
  setup w0 = Some (G, w1) →
  store_wf σ G →
  has_shape2 b 28 x → has_shape2 b 64 z → has_shape2 b 100 h_prev →
  (∃ p, Prior_forward σ (prior G) h_prev = Some p
        ∧ has_shape2 b 64 (loc_ p) ∧ has_shape2 b 64 (scale p))
  ∧ (∃ q, Inference_forward σ (encoder G) x h_prev = Some q
          ∧ has_shape2 b 64 (loc_ q) ∧ has_shape2 b 64 (scale q))
  ∧ (∃ d, Generator_forward σ (decoder G) z h_prev = Some d
          ∧ has_shape2 b 28 (probs d))
  ∧ (∃ h, Recurrence_forward σ (recurrence G) x z h_prev = Some h
          ∧ has_shape2 b 100 h).
Proof.
  intros Hs Hwf Hx Hz Hh.
  destruct (setup_inv w0 G w1 Hs)
    as (p0 & p1 & p2 & p3 & p4 & p5 & p6 & p7 & p8 & p9 & p10 & p11 & p12 & g
        & -> & -> & _).
  split_and!.
  - by apply Prior_forward_ok.
  - by apply Inference_forward_ok.
  - by apply Generator_forward_ok.
  - by apply Recurrence_forward_ok.
Qed.

(** *** The auto-regressive loss *)

Arguments Linear_forward : simpl never.
Arguments GRUCell_forward : simpl never.
Arguments Phi_x_forward : simpl never.
Arguments Phi_z_forward : simpl never.
Arguments Prior_forward : simpl never.
Arguments Generator_forward : simpl never.
Arguments Inference_forward : simpl never.
Arguments Recurrence_forward : simpl never.

Lemma vrnn_step_fn_run G t (kw : env) x_t h_prev w :
  dom kw ⊆ step_names →
  kw !! "x" = Some (VBatch x_t) →
  kw !! "h_prev" = Some (VBatch h_prev) →
  vrnn_step_fn G t kw w =
    match vrnn_step G (w_store w) x_t h_prev (w_gen w) with
    | Some (z, h, g) =>
        Some (step_env x_t z h_prev h, {| w_store := w_store w; w_gen := g |})
    | None => None
    end.
Proof.
  intros Hdom Hx Hh. unfold vrnn_step_fn, vrnn_step.
  rewrite decide_True by done. rewrite Hx, Hh. simpl.
  unfold sample_atom, get_params, get_dict_values. munfold. simpl.
  map_lookup.
  destruct (Inference_forward (w_store w) (encoder G) x_t h_prev) as [q|];
    [|done].
  simpl. unfold with_gen_opt.
  destruct (normal_rsample q (w_gen w)) as [[z g]|]; [|done]. simpl.
  map_lookup.
  destruct (Recurrence_forward (w_store w) (recurrence G) x_t z h_prev) as [h|];
    [|done].
  simpl. reflexivity.
Qed.

Lemma step_env_dom (x_t z h_prev h : mat) :
  dom (step_env x_t z h_prev h) ⊆ step_names.
Proof. unfold step_env, step_names. rewrite !dom_insert_L. set_solver. Qed.

Lemma step_loss_run G σ (x : env) x_t z h_prev :
  x !! "x" = Some (VBatch x_t) →
  x !! "z" = Some (VBatch z) →
  x !! "h_prev" = Some (VBatch h_prev) →
  step_loss G σ x = per_step_loss G σ x_t z h_prev.
Proof.
  intros Hx Hz Hh.
  unfold step_loss, MeanLoss, AddLoss, NLL, KullbackLeibler, get_params,
    get_dict_values, per_step_loss.
  simpl. rewrite Hx, Hz, Hh. simpl.
  destruct (Generator_forward σ (decoder G) z h_prev) as [d|]; [|done]. simpl.
  destruct (bernoulli_nll_batch d x_t) as [nll|]; [|done]. simpl.
  destruct (Inference_forward σ (encoder G) x_t h_prev) as [q|]; [|done]. simpl.
  destruct (Prior_forward σ (prior G) h_prev) as [p|]; [|done]. simpl.
  destruct (normal_kl_batch q p) as [kl|]; [|done]. simpl.
  by destruct (add_batch nll kl) as [l|].
Qed.

Lemma ar_loop_run G xs n : ∀ t (x : env) h_prev acc w,
  t + n ≤ length xs →
  dom x ⊆ step_names →
  x !! "h_prev" = Some (VBatch h_prev) →
  ar_loop (loss G) (<["x" := VSeq xs]> ∅) n t x acc w =
    match step_losses G (w_store w) (take n (drop t xs)) h_prev (w_gen w) with
    | Some (ls, g) =>
        Some (foldl nadd acc ls, {| w_store := w_store w; w_gen := g |})
    | None => None
    end.
Proof.
  induction n as [|n IH]; intros t x h_prev acc w Hlen Hdom Hh.
  - simpl. destruct w; reflexivity.
  - destruct (lookup_lt_is_Some_2 xs t) as [x_t Hxt]; [lia|].
    rewrite (drop_S _ _ _ Hxt). cbn [take step_losses ar_loop].
    cbn [loss ar_series_var slice_step_from_series ar_step_fn
         ar_step_loss ar_update_value].
    munfold. cbn [mbind option_bind].
    map_lookup. cbn [index]. rewrite Hxt. cbn [fmap option_fmap option_map option_bind].
    rewrite (vrnn_step_fn_run G t _ x_t h_prev).
    2:{ rewrite dom_union_L, dom_insert_L, dom_empty_L.
        unfold step_names in *. clear -Hdom. set_solver. }
    2:{ apply lookup_union_Some_l. by rewrite lookup_insert_eq. }
    2:{ rewrite lookup_union_r by done. done. }
    destruct (vrnn_step G (w_store w) x_t h_prev (w_gen w)) as [[[z h] g]|];
      [|done].
    cbn [w_store w_gen option_bind].
    rewrite (step_loss_run G _ _ x_t z h_prev).
    2-4: apply lookup_union_Some_l; unfold step_env; by map_lookup.
    destruct (per_step_loss G (w_store w) x_t z h_prev) as [l|]; [|done].
    cbn [apply_update_value mbind option_bind].
    erewrite lookup_union_Some_l; [|unfold step_env; by map_lookup].
    cbn [mbind option_bind apply_update_value].
    rewrite (IH (S t) _ h); cbn [w_store w_gen].
    + destruct (step_losses _ _ _ _ _) as [[ls g']|]; reflexivity.
    + lia.
    + rewrite dom_insert_L, dom_union_L.
      pose proof (step_env_dom x_t z h_prev h).
      unfold step_names in *. set_solver.
    + by rewrite lookup_insert_eq.
Qed.

(** The estimate of the loss and the per-step losses raise together. *)
Lemma ARLoss_estimate_run G (d : env) xs h0 w :
  d !! "x" = Some (VSeq xs) →
  d !! "h_prev" = Some (VBatch h0) →
  length xs = t_max →
  ARLoss_estimate (loss G) d w =
    match step_losses G (w_store w) xs h0 (w_gen w) with
    | Some (ls, g) =>
        Some (foldl nadd nzero ls, {| w_store := w_store w; w_gen := g |})
    | None => None
    end.
Proof.
  intros Hx Hh Hlen.
  unfold ARLoss_estimate, select, get_dict_values.
  change (ar_max_iter (loss G)) with t_max. rewrite <- Hlen.
  cbn [loss ar_input_var ar_series_var mapM].
  rewrite Hx, Hh. munfold. cbn [mbind option_bind mret option_ret zip zip_with
    list_to_map foldr uncurry fst snd].
  map_lookup. cbn [mbind option_bind mret option_ret zip zip_with
    list_to_map foldr uncurry fst snd].
  rewrite (ar_loop_run G xs (length xs) 0 _ h0).
  - cbn [drop]. rewrite firstn_all. reflexivity.
  - lia.
  - rewrite !dom_insert_L, dom_empty_L. unfold step_names. set_solver.
  - by map_lookup.
Qed.

(** On operands that fit, one step returns, and so do all of them. *)
Lemma zip_with_zip_rows {A B} (a : list (list A)) (c : list (list B)) n :
  Forall (λ r, length r = n) a → Forall (λ r, length r = n) c →
  Forall (λ r, length r = n) (zip_with zip a c).
Proof.
  intros Ha. revert c.
  induction Ha as [|r a Hr Ha IH]; intros c Hc; [constructor|].
  destruct Hc as [|r' c Hr' Hc]; [constructor|].
  cbn. constructor; [rewrite length_zip; lia|by apply IH].
Qed.

Lemma has_shape2_lengths {A} (a : list (list A)) b n :
  length a = b → Forall (λ r, length r = n) a → length <$> a = replicate b n.
Proof.
  intros <- Hall. induction Hall as [|r a Hr Hall IH]; [done|].
  cbn. by rewrite Hr, IH.
Qed.

Lemma has_shape2_same (a c : mat) b n :
  has_shape2 b n a → has_shape2 b n c → same_shape a c.
Proof.
  intros [Ha Hra] [Hc Hrc]. unfold same_shape.
  by rewrite (has_shape2_lengths a b n), (has_shape2_lengths c b n).
Qed.

Lemma normal_rsample_ok (p : normal_params) g b n :
  has_shape2 b n (loc_ p) → has_shape2 b n (scale p) →
  ∃ z g', normal_rsample p g = Some (z, g') ∧ has_shape2 b n z.
Proof.
  intros Hl Hs. unfold normal_rsample.
  rewrite decide_True by (by eapply has_shape2_same).
  destruct Hl as [Hl Hlr], Hs as [Hs Hsr].
  pose proof (draw_mat_length (λ ls : num * num, normal_draw ls.1 ls.2)
                (zip_with zip (loc_ p) (scale p)) g) as Hlen.
  pose proof (draw_mat_rows (λ ls : num * num, normal_draw ls.1 ls.2)
                (zip_with zip (loc_ p) (scale p)) n g
                (zip_with_zip_rows _ _ _ Hlr Hsr)) as Hrows.
  destruct (draw_mat _ _ g) as [z g']. cbn [fst] in *.
  eexists _, _. split; [reflexivity|].
  split; [|done]. rewrite Hlen, length_zip_with. lia.
Qed.

Lemma bernoulli_nll_batch_ok (d : bernoulli_params) (x : mat) b n :
  has_shape2 b n (probs d) → has_shape2 b n x →
  ∃ l, bernoulli_nll_batch d x = Some l ∧ length l = b.
Proof.
  intros Hd Hx. unfold bernoulli_nll_batch.
  rewrite decide_True by (by eapply has_shape2_same).
  eexists. split; [reflexivity|].
  rewrite length_zip_with. destruct Hd, Hx. lia.
Qed.

Lemma normal_kl_batch_ok (q p : normal_params) b n :
  has_shape2 b n (loc_ q) → has_shape2 b n (scale q) →
  has_shape2 b n (loc_ p) → has_shape2 b n (scale p) →
  ∃ l, normal_kl_batch q p = Some l ∧ length l = b.
Proof.
  intros Hql Hqs Hpl Hps. unfold normal_kl_batch.
  rewrite decide_True by (split_and!; by eapply has_shape2_same).
  eexists. split; [reflexivity|].
  rewrite length_zip_with, !length_zip.
  destruct Hql, Hqs, Hpl, Hps. lia.
Qed.

Lemma bernoulli_draw_shape (m : mat) g b n :
  has_shape2 b n m → has_shape2 b n (draw_mat bernoulli_draw m g).1.
Proof.
  intros [Hl Hr]. split; [by rewrite draw_mat_length|by apply draw_mat_rows].
Qed.

Lemma vrnn_step_ok (σ : store (num := num)) n (x_t h_prev : mat) g b :
  store_wf σ (globals_at n) →
  has_shape2 b 28 x_t → has_shape2 b 100 h_prev →
  ∃ z h g', vrnn_step (globals_at n) σ x_t h_prev g = Some (z, h, g')
            ∧ has_shape2 b 64 z ∧ has_shape2 b 100 h.
Proof.
  intros Hwf Hx Hh. unfold vrnn_step.
  destruct (Inference_forward_ok σ n x_t h_prev b Hwf Hx Hh)
    as (q & -> & Hl & Hs).
  osimpl.
  destruct (normal_rsample_ok q g b 64 Hl Hs) as (z & g' & -> & Hz).
  osimpl.
  destruct (Recurrence_forward_ok σ n x_t z h_prev b Hwf Hx Hz Hh)
    as (h & -> & Hh').
  osimpl. by eexists _, _, _.
Qed.

Lemma per_step_loss_ok (σ : store (num := num)) n (x_t z h_prev : mat) b :
  store_wf σ (globals_at n) →
  has_shape2 b 28 x_t → has_shape2 b 64 z → has_shape2 b 100 h_prev →
  ∃ l, per_step_loss (globals_at n) σ x_t z h_prev = Some l.
Proof.
  intros Hwf Hx Hz Hh. unfold per_step_loss.
  destruct (Generator_forward_ok σ n z h_prev b Hwf Hz Hh) as (d & -> & Hd).
  osimpl.
  destruct (bernoulli_nll_batch_ok d x_t b 28 Hd Hx) as (nll & -> & Hnll).
  osimpl.
  destruct (Inference_forward_ok σ n x_t h_prev b Hwf Hx Hh)
    as (q & -> & Hql & Hqs).
  osimpl.
  destruct (Prior_forward_ok σ n h_prev b Hwf Hh) as (p & -> & Hpl & Hps).
  osimpl.
  destruct (normal_kl_batch_ok q p b 64 Hql Hqs Hpl Hps) as (kl & -> & Hkl).
  osimpl. unfold add_batch. rewrite decide_True by congruence.
  osimpl. by eexists.
Qed.

Lemma step_losses_ok (σ : store (num := num)) n b (xs : ten3) :
  store_wf σ (globals_at n) →
  Forall (has_shape2 b 28) xs →
  ∀ (h_prev : mat) g,
    has_shape2 b 100 h_prev →
    ∃ ls g', step_losses (globals_at n) σ xs h_prev g = Some (ls, g')
             ∧ length ls = length xs.
Proof.
  intros Hwf Hxs. induction Hxs as [|x_t xs Hx Hxs IH]; intros h_prev g Hh.
  - by eexists _, _.
  - cbn [step_losses].
    destruct (vrnn_step_ok σ n x_t h_prev g b Hwf Hx Hh)
      as (z & h & g1 & -> & Hz & Hh').
    osimpl.
    destruct (per_step_loss_ok σ n x_t z h_prev b Hwf Hx Hz Hh) as (l & ->).
    osimpl.
    destruct (IH h g1 Hh') as (ls & g2 & -> & Hlen).
    osimpl. eexists _, _. split; [reflexivity|]. simpl. by rewrite Hlen.
Qed.

(** C1: with the objects and the parameter shapes of the construction
    cells, on a sequence of [t_max] = 28 steps of [b] rows of width 28
    and a hidden state of [b] rows of width 100, the estimate of the
    loss returns: it is the sum, in step order, of the 28 per-step
    losses, each the batch mean of the decoder's negative
    log-likelihood plus the KL divergence between encoder and prior,
    the hidden state made by the step function at one step being the
    previous hidden state of the next (this is [step_losses]); the
    estimate leaves the parameters alone and advances the generator by
    the draws of the 28 steps. *)
Theorem ARLoss_sums_step_losses (w0 : world (rng := rng)) G w1 (d : env)
    xs h0 w b :
  setup w0 = Some (G, w1) →
  store_wf (w_store w) G →
  d !! "x" = Some (VSeq xs) →
  d !! "h_prev" = Some (VBatch h0) →
  has_shape3 28 b 28 xs →
  has_shape2 b 100 h0 →
  t_max = 28
  ∧ ∃ ls g,
      step_losses G (w_store w) xs h0 (w_gen w) = Some (ls, g)
      ∧ length ls = 28
      ∧ ARLoss_estimate (loss G) d w =
          Some (foldl nadd nzero ls, {| w_store := w_store w; w_gen := g |}).
Proof.
  intros Hs Hwf Hx Hh [Hlen Hxs] Hh0.
  split; [reflexivity|].
  destruct (setup_inv w0 G w1 Hs)
    as (p0 & p1 & p2 & p3 & p4 & p5 & p6 & p7 & p8 & p9 & p10 & p11 & p12 & g
        & -> & -> & _).
  destruct (step_losses_ok _ _ b xs Hwf Hxs h0 (w_gen w) Hh0)
    as (ls & g' & Hrun & Hls).
  exists ls, g'. split; [exact Hrun|]. split; [congruence|].
  rewrite (ARLoss_estimate_run _ d xs h0 w Hx Hh Hlen). by rewrite Hrun.
Qed.

(** *** Shapes and the transposition *)

Lemma transpose01_length (t : ten3) :
  length (transpose01 t) = length (t !!! 0).
Proof. unfold transpose01. by rewrite length_fmap, length_seq. Qed.

Lemma transpose01_row (t : ten3) k :
  k < length (t !!! 0) →
  transpose01 t !!! k = (λ m : mat, m !!! k) <$> t.
Proof.
  intros Hk. unfold transpose01.
  apply list_lookup_total_correct.
  by rewrite list_lookup_fmap, lookup_seq_lt.
Qed.

Lemma transpose01_elem (t : ten3) k i :
  k < length (t !!! 0) → i < length t →
  (transpose01 t !!! k) !!! i = (t !!! i) !!! k.
Proof.
  intros Hk Hi. rewrite transpose01_row by done.
  apply list_lookup_total_correct.
  by rewrite list_lookup_fmap, (list_lookup_lookup_total_lt t i).
Qed.

Lemma transpose01_shape a b c (t : ten3) :
  a ≠ 0 → has_shape3 a b c t → has_shape3 b a c (transpose01 t).
Proof.
  intros Ha [Hlen Hall].
  assert (Hb : length (t !!! 0) = b).
  { destruct t as [|m0 t]; [done|]. by apply Forall_cons in Hall as [[? _] _]. }
  split; [by rewrite transpose01_length|].
  apply Forall_lookup_2. intros k row Hrow.
  assert (Hk : k < b).
  { apply lookup_lt_Some in Hrow. by rewrite transpose01_length, Hb in Hrow. }
  assert (Hrow' : transpose01 t !!! k = row)
    by (by apply list_lookup_total_correct).
  rewrite transpose01_row in Hrow' by lia. subst row.
  split; [by rewrite length_fmap|].
  apply Forall_fmap. eapply Forall_impl; [exact Hall|].
  intros m [Hm Hrows]. simpl.
  eapply (Forall_lookup_1 _ _ k) in Hrows; [exact Hrows|].
  apply list_lookup_lookup_total_lt. lia.
Qed.

(** X12: on a rectangular tensor with non-empty leading axes the
    transposition of the first two axes is its own inverse: the layout
    [plot_image_from_latent] returns, transposed as [data_loop]
    transposes a batch, is the sequence of per-step rows again. *)
Theorem transpose01_involutive a b c (t : ten3) :
  a ≠ 0 → b ≠ 0 → has_shape3 a b c t →
  transpose01 (transpose01 t) = t.
Proof.
  intros Ha Hb Hsh.
  pose proof (transpose01_shape a b c t Ha Hsh) as Hsh'.
  pose proof (transpose01_shape b a c _ Hb Hsh') as Hsh''.
  destruct Hsh as [Hlen Hall], Hsh' as [Hlen' Hall'], Hsh'' as [Hlen'' Hall''].
  assert (H0 : length (t !!! 0) = b).
  { rewrite <- Hlen'. by rewrite transpose01_length. }
  assert (H0' : length (transpose01 t !!! 0) = a).
  { rewrite <- Hlen''. by rewrite transpose01_length. }
  apply (list_eq_same_length _ _ a); [done|done|].
  intros i m m' Hi Hm Hm'.
  assert (Em : transpose01 (transpose01 t) !!! i = m)
    by (by apply list_lookup_total_correct).
  assert (Em' : t !!! i = m') by (by apply list_lookup_total_correct).
  rewrite transpose01_row in Em by lia. subst m m'.
  assert (Hmi : length (t !!! i) = b).
  { eapply (Forall_lookup_1 _ _ i) in Hall; [apply Hall|].
    apply list_lookup_lookup_total_lt. lia. }
  apply (list_eq_same_length _ _ b); [done|by rewrite length_fmap|].
  intros k r r' Hk Hr Hr'.
  rewrite list_lookup_fmap in Hr.
  rewrite (list_lookup_lookup_total_lt (transpose01 t) k) in Hr by lia.
  injection Hr as <-.
  rewrite transpose01_elem by lia.
  assert (Er' : (t !!! i) !!! k = r') by (by apply list_lookup_total_correct).
  done.
Qed.

(** *** The data loop *)

Lemma data_loop_body_run {S} G (model : Model (S := S)) train_mode fr batch d :
  data_loop_body G model train_mode fr batch d =
    match (if train_mode then train model else test model)
            (body_input G batch) (fw d) with
    | Some (l, s) =>
        Some ({| mean_loss := padd (mean_loss fr)
                                (pmul (item l) (pof_nat (length batch.1)));
                 l_data := Some batch.1;
                 l_batch_size := Some (length batch.1);
                 l_x := Some (transpose01 batch.1);
                 l_h_prev := Some (zeros (length batch.1)
                               (Recurrence_hidden_size (recurrence G))) |},
              {| fw := s; out := out d |})
    | None => None
    end.
Proof.
  unfold data_loop_body, lift_fw, body_input. munfold.
  by destruct ((if train_mode then train model else test model) _ (fw d))
    as [[l s]|].
Qed.

Lemma body_input_fresh G (batch : ten3 * list nat) :
  Recurrence_hidden_size (recurrence G) = 100 →
  body_input G batch = fresh_input batch.1.
Proof. intros Hhid. unfold body_input, batch_input, fresh_input. by rewrite Hhid. Qed.

Lemma data_loop_body_recording {S} G (model : Model (S := S)) train_mode fr
    batch s log o :
  data_loop_body G (recording model) train_mode fr batch
      {| fw := (s, log); out := o |} =
    match data_loop_body G model train_mode fr batch {| fw := s; out := o |} with
    | Some (fr', d) =>
        Some (fr', {| fw := (fw d, log ++ [body_input G batch]); out := out d |})
    | None => None
    end.
Proof.
  rewrite !data_loop_body_run. cbn [fw out].
  destruct train_mode; cbn [recording train test]; unfold recording_call;
    cbn [fst snd].
  - by destruct (train model (body_input G batch) s) as [[l s']|].
  - by destruct (test model (body_input G batch) s) as [[l s']|].
Qed.

Lemma bind_inv {Σ A B} (m : ST Σ A) (f : A → ST Σ B) w r :
  (m ≫= f) w = Some r → ∃ a w', m w = Some (a, w') ∧ f a w' = Some r.
Proof.
  unfold mbind, ST_bind. destruct (m w) as [[a w']|]; [|done]. eauto.
Qed.

Lemma bind_unfold {Σ A B} (m : ST Σ A) (f : A → ST Σ B) w :
  (m ≫= f) w = match m w with Some (a, w') => f a w' | None => None end.
Proof. reflexivity. Qed.

Lemma data_loop_iter_recording {S} G (model : Model (S := S)) train_mode
    batches : ∀ fr s log o,
  data_loop_iter G (recording model) train_mode fr batches
      {| fw := (s, log); out := o |} =
    match data_loop_iter G model train_mode fr batches {| fw := s; out := o |} with
    | Some (fr', d) =>
        Some (fr', {| fw := (fw d, log ++ (body_input G <$> batches));
                      out := out d |})
    | None => None
    end.
Proof.
  induction batches as [|batch rest IH]; intros fr s log o.
  - cbn. by rewrite app_nil_r.
  - cbn [data_loop_iter]. rewrite !bind_unfold.
    rewrite data_loop_body_recording.
    destruct (data_loop_body G model train_mode fr batch _) as [[fr1 [s1 o1]]|];
      [|done].
    cbn [fw out]. rewrite IH.
    destruct (data_loop_iter G model train_mode fr1 rest _) as [[fr2 d2]|];
      [|done].
    by rewrite fmap_cons, <- app_assoc.
Qed.

Lemma data_loop_recording {S} G (model : Model (S := S)) ld epoch train_mode
    s log o :
  data_loop G epoch (logged_loader ld) (recording model) train_mode
      {| fw := (s, log); out := o |} =
    match data_loop G epoch ld model train_mode {| fw := s; out := o |} with
    | Some (v, d) =>
        Some (v, {| fw := (fw d, log ++ (body_input G <$> (iterate ld s).1));
                    out := out d |})
    | None => None
    end.
Proof.
  unfold data_loop. rewrite !bind_unfold. unfold lift_fw at 1 2.
  cbn [fw out logged_loader iterate dataset_len fst snd].
  destruct (iterate ld s) as [batches s1]. cbn [fst snd].
  rewrite !bind_unfold.
  rewrite data_loop_iter_recording.
  destruct (data_loop_iter G model train_mode _ batches _) as [[fr d]|]; [|done].
  destruct (decide (dataset_len ld = 0)); [done|].
  reflexivity.
Qed.


(** The accumulation of the loop, by loss and batch size. *)
Lemma data_loop_iter_run {S} G (model : Model (S := S)) train_mode batches :
  ∀ fr s o ls s',
    Recurrence_hidden_size (recurrence G) = 100 →
    run_batches model train_mode batches s = Some (ls, s') →
    ∃ fr', data_loop_iter G model train_mode fr batches {| fw := s; out := o |}
             = Some (fr', {| fw := s'; out := o |})
           ∧ mean_loss fr' =
               foldl (λ acc ln, padd acc (pmul (item ln.1) (pof_nat ln.2)))
                     (mean_loss fr) ls.
Proof.
  induction batches as [|batch rest IH]; intros fr s o ls s' Hhid Hrun.
  - injection Hrun as <- <-. by exists fr.
  - cbn [run_batches] in Hrun.
    apply bind_inv in Hrun as (l & s1 & Hcall & Hrun).
    apply bind_inv in Hrun as (ls' & s2 & Hrest & Hret).
    injection Hret as <- <-.
    cbn [data_loop_iter]. rewrite bind_unfold, data_loop_body_run.
    rewrite (body_input_fresh G batch Hhid).
    cbn [fw out]. rewrite Hcall.
    edestruct IH as (fr' & -> & Hmean); [done|exact Hrest|].
    exists fr'. split; [done|]. by rewrite Hmean.
Qed.

Lemma data_loop_iter_none {S} G (model : Model (S := S)) train_mode batches :
  ∀ fr s o,
    Recurrence_hidden_size (recurrence G) = 100 →
    run_batches model train_mode batches s = None →
    data_loop_iter G model train_mode fr batches {| fw := s; out := o |} = None.
Proof.
  induction batches as [|batch rest IH]; intros fr s o Hhid Hrun; [done|].
  cbn [run_batches] in Hrun. rewrite bind_unfold in Hrun.
  cbn [data_loop_iter]. rewrite bind_unfold, data_loop_body_run.
  rewrite (body_input_fresh G batch Hhid). cbn [fw out].
  destruct ((if train_mode then train model else test model) _ s) as [[l s1]|];
    [|done].
  rewrite bind_unfold in Hrun.
  destruct (run_batches model train_mode rest s1) as [[ls s2]|] eqn:Hrest;
    [done|].
  by apply IH.
Qed.

(** What [data_loop] does in terms of the losses of its batches: it
    raises when a call of the model does or the dataset is empty. *)
Lemma data_loop_run {S} G (model : Model (S := S)) ld epoch train_mode s o :
  Recurrence_hidden_size (recurrence G) = 100 →
  data_loop G epoch ld model train_mode {| fw := s; out := o |} =
    match run_batches model train_mode (iterate ld s).1 (iterate ld s).2 with
    | Some (ls, s') =>
        if decide (dataset_len ld = 0) then None else
        let v := weighted_mean ls (dataset_len ld) in
        Some (v, {| fw := s';
                    out := o ++ [Print (if train_mode
                                        then "Epoch: " +:+ pretty epoch
                                               +:+ " Train loss: " +:+ format_4f v
                                        else "Test loss: " +:+ format_4f v)] |})
    | None => None
    end.
Proof.
  intros Hhid.
  unfold data_loop. rewrite bind_unfold. unfold lift_fw at 1. cbn [fw out].
  destruct (iterate ld s) as [batches s1]. cbn [fst snd].
  rewrite bind_unfold.
  destruct (run_batches model train_mode batches s1) as [[ls s2]|] eqn:Hrun.
  - edestruct (data_loop_iter_run G model train_mode batches) as (fr' & -> & Hmean);
      [exact Hhid|exact Hrun|].
    destruct (decide (dataset_len ld = 0)); [done|].
    rewrite bind_unfold. unfold emit. cbn [fw out mret ST_ret].
    cbn [mean_loss] in Hmean. rewrite Hmean. reflexivity.
  - by rewrite (data_loop_iter_none G model train_mode batches _ s1 o Hhid Hrun).
Qed.


(** C4: the fixed sequence length equals the row width, 28, which is
    also what [init_dataset] returns as the sequence length; and in a
    pass of [data_loop] over a loader whose batches are non-empty
    stacks of images of 28 rows of width 28, the dictionaries handed to
    the model are, batch by batch of the loader, those whose x is the
    transposed batch: 28 timesteps, each a batch of as many vectors of
    width 28 as the batch has images, timestep [t] of sample [i] being
    row [t] of image [i]. *)
Theorem sequence_batch_shape {S} G (model : Model (S := S)) (ld : Loader)
    epoch train_mode s log o v d' :
  Forall (λ batch : ten3 * list nat,
            batch.1 ≠ [] ∧ Forall (has_shape2 28 28) batch.1) (iterate ld s).1 →
  data_loop G epoch (logged_loader ld) (recording model) train_mode
      {| fw := (s, log); out := o |} = Some (v, d') →
  t_max = 28 ∧ x_dim = 28 ∧ t_max = x_dim ∧ fixed_t_size = t_max
  ∧ (∀ (shuffle : S → list (mat * nat) → list (mat * nat) * S) tr te bs,
       (init_dataset shuffle tr te bs).2 = t_max)
  ∧ ∃ inps,
      (fw d').2 = log ++ inps
      ∧ Forall2 (λ (batch : ten3 * list nat) (inp : env),
                   inp !! "x" = Some (VSeq (transpose01 batch.1))
                   ∧ has_shape3 28 (length batch.1) 28 (transpose01 batch.1)
                   ∧ (∀ t i, t < 28 → i < length batch.1 →
                        (transpose01 batch.1 !!! t) !!! i = (batch.1 !!! i) !!! t))
                (iterate ld s).1 inps.
Proof.
  intros Hshape Hrun.
  do 4 (split; [reflexivity|]). split; [reflexivity|].
  rewrite data_loop_recording in Hrun.
  destruct (data_loop G epoch ld model train_mode _) as [[v' d]|]; [|done].
  injection Hrun as <- <-. cbn [fw snd].
  eexists. split; [reflexivity|].
  apply Forall2_fmap_r, Forall_Forall2_diag.
  eapply Forall_impl; [exact Hshape|].
  intros [data labels] [Hne Hall]. cbn [fst] in *.
  assert (Hlen0 : length (data !!! 0) = 28).
  { destruct data as [|m0 data']; [done|].
    by apply Forall_cons in Hall as [[? _] _]. }
  split_and!.
  - unfold body_input, batch_input. by map_lookup.
  - apply transpose01_shape; [by destruct data|]. by split.
  - intros t i Ht Hi. apply transpose01_elem; lia.
Qed.

(** What a completed [data_loop] returned and wrote. *)
Lemma data_loop_inv {S} G (model : Model (S := S)) ld epoch train_mode d v d' :
  Recurrence_hidden_size (recurrence G) = 100 →
  data_loop G epoch ld model train_mode d = Some (v, d') →
  ∃ ls,
    run_batches model train_mode (iterate ld (fw d)).1 (iterate ld (fw d)).2
      = Some (ls, fw d')
    ∧ v = weighted_mean ls (dataset_len ld)
    ∧ out d' = out d ++
        [Print (if train_mode
                then "Epoch: " +:+ pretty epoch +:+ " Train loss: " +:+ format_4f v
                else "Test loss: " +:+ format_4f v)].
Proof.
  intros Hhid. destruct d as [s o]. rewrite (data_loop_run _ _ _ _ _ _ _ Hhid).
  cbn [fw out].
  destruct (run_batches _ _ _ _) as [[ls s']|]; [|done].
  destruct (decide _); [done|]. cbn zeta. intros [= <- <-].
  by exists ls.
Qed.

Lemma epoch_body_logged {S} G (gfp : env → ST S env) (dsm : env → ST S mat)
    trl tel (model : Model (S := S)) epoch d d' :
  Recurrence_hidden_size (recurrence G) = 100 →
  epoch_body G gfp dsm trl tel model epoch d = Some ((), d') →
  ∃ evs,
    epoch_logged model (plot_image_from_latent G gfp dsm batch_size) trl tel
      epoch (fw d) evs (fw d')
    ∧ out d' = out d ++ evs.
Proof.
  intros Hhid Hrun. unfold epoch_body in Hrun.
  apply bind_inv in Hrun as (v1 & d1 & H1 & Hrun).
  apply bind_inv in Hrun as (v2 & d2 & H2 & Hrun).
  apply (data_loop_inv _ _ _ _ _ _ _ _ Hhid) in H1 as (ls1 & R1 & -> & O1).
  apply (data_loop_inv _ _ _ _ _ _ _ _ Hhid) in H2 as (ls2 & R2 & -> & O2).
  rewrite !bind_unfold in Hrun. unfold emit, lift_fw in Hrun.
  cbn [fw out] in Hrun. rewrite !bind_unfold in Hrun. cbn [fw out] in Hrun.
  destruct (plot_image_from_latent G gfp dsm batch_size (fw d2))
    as [[img s3]|] eqn:Hplot; [|done].
  injection Hrun as <-. cbn [fw out].
  eexists. split.
  - exists ls1, (fw d1), ls2, (fw d2), img. split_and!; [done|done|done|reflexivity].
  - rewrite O2, O1, <- !app_assoc. reflexivity.
Qed.

Lemma epoch_loop_logged {S} G (gfp : env → ST S env) (dsm : env → ST S mat)
    trl tel (model : Model (S := S)) es :
  Recurrence_hidden_size (recurrence G) = 100 →
  ∀ d d', epoch_loop G gfp dsm trl tel model es d = Some ((), d') →
    ∃ evs,
      epochs_logged model (plot_image_from_latent G gfp dsm batch_size) trl tel
        es (fw d) evs (fw d')
      ∧ out d' = out d ++ evs.
Proof.
  intros Hhid. induction es as [|e es IH]; intros d d' Hrun.
  - injection Hrun as <-. exists []. by rewrite app_nil_r.
  - cbn [epoch_loop] in Hrun.
    apply bind_inv in Hrun as ([] & d1 & Hbody & Hrun).
    apply (epoch_body_logged _ _ _ _ _ _ _ _ _ Hhid) in Hbody
      as (evs1 & Hlog1 & Hout1).
    apply IH in Hrun as (evs2 & Hlog2 & Hout2).
    exists (evs1 ++ evs2). split.
    + cbn [epochs_logged]. by exists evs1, (fw d1), evs2.
    + by rewrite Hout2, Hout1, <- app_assoc.
Qed.

(** C6: when the dataset is not empty and the batches of the pass
    yield the losses l_i for the batch sizes n_i, [data_loop] returns
    the sum of the l_i * n_i, accumulated in batch order from zero,
    divided by the size of the dataset, and the line it prints renders
    this very value; and whatever a completed run of the epoch loop
    has written is, for each of the epochs 1 to 10 in order, the two
    lines and then the scalars train_loss and test_loss carrying the
    weighted means of that epoch's pass over the train loader and of
    its pass over the test loader, followed by the image. *)
Theorem data_loop_weighted_mean {S} w0 G w1 (model : Model (S := S)) ld epoch
    train_mode s o ls s' :
  setup w0 = Some (G, w1) →
  dataset_len ld ≠ 0 →
  run_batches model train_mode (iterate ld s).1 (iterate ld s).2 = Some (ls, s') →
  let v := weighted_mean ls (dataset_len ld) in
  data_loop G epoch ld model train_mode {| fw := s; out := o |} =
    Some (v, {| fw := s';
                out := o ++ [Print (if train_mode
                                    then "Epoch: " +:+ pretty epoch
                                           +:+ " Train loss: " +:+ format_4f v
                                    else "Test loss: " +:+ format_4f v)] |})
  ∧ (∀ gfp dsm train_loader test_loader d d',
       main G gfp dsm train_loader test_loader model d = Some ((), d') →
       ∃ evs,
         epochs_logged model (plot_image_from_latent G gfp dsm batch_size)
           train_loader test_loader [1; 2; 3; 4; 5; 6; 7; 8; 9; 10]
           (fw d) evs (fw d')
         ∧ out d' = out d ++ evs).
Proof.
  intros Hs HN Hrun v.
  destruct (setup_run w0) as (G' & w1' & Hs' & _ & _ & _ & _ & Hhid & _).
  rewrite Hs in Hs'. injection Hs' as <- <-.
  split.
  - rewrite (data_loop_run _ _ _ _ _ _ _ Hhid), Hrun.
    by rewrite decide_False.
  - intros gfp dsm train_loader test_loader d d' Hmain.
    unfold main in Hmain.
    change (seq 1 epochs) with [1; 2; 3; 4; 5; 6; 7; 8; 9; 10] in Hmain.
    exact (epoch_loop_logged _ _ _ _ _ _ _ Hhid _ _ Hmain).
Qed.

(** *** The notebook's model in the data loop *)









(** *** Operands that do not fit *)

Lemma zip_with_app_rows_inv {A} (a c : list (list A)) n m :
  Forall (λ r, length r = n) a → length a = length c →
  Forall (λ r, length r = n + m) (zip_with app a c) →
  Forall (λ r, length r = m) c.
Proof.
  intros Ha. revert c.
  induction Ha as [|r a Hr Ha IH]; intros c Hlen Hall.
  - destruct c; [constructor|done].
  - destruct c as [|r' c]; [done|]. cbn in Hall, Hlen.
    apply Forall_cons in Hall as [Hrr Hall]. rewrite length_app in Hrr.
    constructor; [lia|]. apply IH; [lia|done].
Qed.

Lemma Linear_forward_bad σ (l : Linear) (x : mat) :
  ¬ Forall (λ r, length r = in_features l) x → Linear_forward σ l x = None.
Proof. intros Hbad. unfold Linear_forward. by rewrite decide_False. Qed.

Lemma Inference_forward_mismatch (σ : store (num := num)) n (x h_prev : mat) :
  store_wf σ (globals_at n) →
  ¬ Forall (λ r, length r = 28) x
  ∨ length x ≠ length h_prev
  ∨ ¬ Forall (λ r, length r = 100) h_prev →
  Inference_forward σ (encoder (globals_at n)) x h_prev = None.
Proof.
  intros Hwf Hbad.
  destruct (store_wf_globals_at σ _ Hwf)
    as (L0 & L1 & L2 & L3 & L4 & L5 & L6 & L7 & L8 & L9 & L10).
  unfold Inference_forward, Phi_x_forward.
  cbn [globals_at encoder Inference_fc1 Inference_fc21 Inference_fc22
       Inference_f_phi_x Phi_x_fc0].
  destruct (decide (Forall (λ r, length r = 28) x)) as [Hx|Hx].
  2:{ by rewrite (Linear_forward_bad σ (Linear_at x_dim h_dim n) x Hx). }
  assert (Hsx : has_shape2 (length x) 28 x) by done.
  fwd_linear L0 Hsx. apply (map2d_shape relu) in S. destruct S as [Sl Sr].
  unfold cat_last.
  destruct (decide (length (map2d relu y) = length h_prev)) as [Hlen|Hlen].
  2:{ reflexivity. }
  osimpl. rewrite Linear_forward_bad; [done|].
  cbn [in_features Linear_at]. intros Hall.
  apply (zip_with_app_rows_inv _ _ h_dim h_dim Sr Hlen) in Hall.
  destruct Hbad as [?|[?|?]]; [done|congruence|done].
Qed.

Lemma ar_loop_first_step_raises G xs n t (x : env) x_t h_prev acc w :
  xs !! t = Some x_t →
  dom x ⊆ step_names →
  x !! "h_prev" = Some (VBatch h_prev) →
  vrnn_step G (w_store w) x_t h_prev (w_gen w) = None →
  ar_loop (loss G) (<["x" := VSeq xs]> ∅) (S n) t x acc w = None.
Proof.
  intros Hxt Hdom Hh Hstep. cbn [ar_loop].
  cbn [loss ar_series_var slice_step_from_series ar_step_fn
       ar_step_loss ar_update_value].
  munfold. cbn [mbind option_bind].
  map_lookup. cbn [index]. rewrite Hxt. cbn [fmap option_fmap option_map option_bind].
  rewrite (vrnn_step_fn_run G t _ x_t h_prev).
  - by rewrite Hstep.
  - rewrite dom_union_L, dom_insert_L, dom_empty_L.
    unfold step_names in *. clear -Hdom. set_solver.
  - apply lookup_union_Some_l. by rewrite lookup_insert_eq.
  - rewrite lookup_union_r by done. done.
Qed.

(** X5: the loss raises, at its first step, on operands the encoder
    cannot take: with the objects and the parameter shapes of the
    construction cells, when the rows of the first timestep of x are
    not 28 wide, when that timestep and h_prev differ in batch size,
    or when the rows of h_prev are not 100 wide. *)
Theorem loss_raises_on_size_mismatch (w0 : world (rng := rng)) G w1 (d : env)
    xs (x0 h0 : mat) w :
  setup w0 = Some (G, w1) →
  store_wf (w_store w) G →
  d !! "x" = Some (VSeq xs) →
  d !! "h_prev" = Some (VBatch h0) →
  xs !! 0 = Some x0 →
  ¬ Forall (λ r, length r = 28) x0
  ∨ length x0 ≠ length h0
  ∨ ¬ Forall (λ r, length r = 100) h0 →
  ARLoss_estimate (loss G) d w = None.
Proof.
  intros Hs Hwf Hx Hh Hx0 Hbad.
  destruct (setup_inv w0 G w1 Hs)
    as (p0 & p1 & p2 & p3 & p4 & p5 & p6 & p7 & p8 & p9 & p10 & p11 & p12 & g
        & -> & -> & _).
  unfold ARLoss_estimate, select, get_dict_values.
  change (ar_max_iter (loss _)) with (S 27).
  cbn [loss ar_input_var ar_series_var mapM].
  rewrite Hx, Hh. munfold. cbn [mbind option_bind mret option_ret zip zip_with
    list_to_map foldr uncurry fst snd].
  map_lookup. cbn [mbind option_bind mret option_ret zip zip_with
    list_to_map foldr uncurry fst snd].
  apply (ar_loop_first_step_raises _ xs 27 0 _ x0 h0).
  - exact Hx0.
  - rewrite !dom_insert_L, dom_empty_L. unfold step_names. set_solver.
  - by map_lookup.
  - unfold vrnn_step.
    by rewrite (Inference_forward_mismatch _ _ x0 h0 Hwf Hbad).
Qed.

(** *** The step function *)

(** X7: the step function reads only x and h_prev: the step index and
    whatever the dictionary holds under h and z (the previous step's
    values) do not matter. *)
Theorem vrnn_step_fn_reads_x_h_prev G t t' (kw kw' : env) (w : world (rng := rng)) :
  dom kw ⊆ step_names → dom kw' ⊆ step_names →
  (kw !! "x") = (kw' !! "x") → (kw !! "h_prev") = (kw' !! "h_prev") →
  vrnn_step_fn G t kw w = vrnn_step_fn G t' kw' w.
Proof.
  intros Hd Hd' Hx Hh. unfold vrnn_step_fn.
  rewrite !decide_True by done. by rewrite Hx, Hh.
Qed.

(** *** The data loop: modes and failures *)

Lemma data_loop_iter_mode {S} G (m m' : Model (num := num) (S := S))
    (train_mode : bool) batches :
  (if train_mode then train m else test m)
    = (if train_mode then train m' else test m') →
  ∀ fr d, data_loop_iter G m train_mode fr batches d
          = data_loop_iter G m' train_mode fr batches d.
Proof.
  intros Hm. induction batches as [|batch rest IH]; intros fr d; [done|].
  cbn [data_loop_iter]. rewrite !bind_unfold, !data_loop_body_run, Hm.
  destruct ((if train_mode then train m' else test m') _ (fw d)) as [[l s]|];
    [|done].
  apply IH.
Qed.

(** X9: in test mode [data_loop] never calls [model.train], and in
    train mode never [model.test]: two models that agree on the entry
    point of the mode give the same run, whatever their other entry
    point does. *)
Theorem data_loop_calls_one_entry_point {S} G (m m' : Model (num := num) (S := S))
    epoch ld (train_mode : bool) d :
  (if train_mode then train m else test m)
    = (if train_mode then train m' else test m') →
  data_loop G epoch ld m train_mode d = data_loop G epoch ld m' train_mode d.
Proof.
  intros Hm. unfold data_loop. rewrite !bind_unfold.
  destruct (lift_fw _ d) as [[batches d1]|]; [|done].
  rewrite !bind_unfold. by rewrite (data_loop_iter_mode G m m' train_mode batches Hm).
Qed.

(** X10: [data_loop] raises exactly when a call of the model raises on
    some batch of the pass or the dataset is empty (the division by its
    length). *)
Theorem data_loop_raises_iff {S} (w0 : world (rng := rng)) G w1
    (model : Model (S := S)) ld epoch train_mode s o :
  setup w0 = Some (G, w1) →
  data_loop G epoch ld model train_mode {| fw := s; out := o |} = None
  ↔ run_batches model train_mode (iterate ld s).1 (iterate ld s).2 = None
    ∨ dataset_len ld = 0.
Proof.
  intros Hs.
  destruct (setup_run w0) as (G' & w1' & Hs' & _ & _ & _ & _ & Hhid & _).
  rewrite Hs in Hs'. injection Hs' as <- <-.
  unfold data_loop. rewrite bind_unfold. unfold lift_fw at 1. cbn [fw out].
  destruct (iterate ld s) as [batches s1]. cbn [fst snd].
  rewrite bind_unfold.
  destruct (run_batches model train_mode batches s1) as [[ls s2]|] eqn:Hrun.
  - edestruct (data_loop_iter_run G model train_mode batches) as (fr' & -> & _);
      [exact Hhid|exact Hrun|].
    destruct (decide (dataset_len ld = 0)) as [HN|HN].
    + split; [by right|done].
    + split; [done|]. by intros [?|?].
  - rewrite (data_loop_iter_none G model train_mode batches _ s1 o Hhid Hrun).
    split; [by left|done].
Qed.

(** *** What an epoch and the whole run write *)

Lemma data_loop_iter_out {S} G (model : Model (S := S)) train_mode batches :
  ∀ fr d fr' d',
    data_loop_iter G model train_mode fr batches d = Some (fr', d') →
    out d' = out d.
Proof.
  induction batches as [|batch rest IH]; intros fr d fr' d' Hrun.
  - by injection Hrun as <- <-.
  - cbn [data_loop_iter] in Hrun. rewrite bind_unfold, data_loop_body_run in Hrun.
    destruct ((if train_mode then train model else test model) _ (fw d))
      as [[l s]|]; [|done].
    apply IH in Hrun. by rewrite Hrun.
Qed.

Lemma data_loop_out {S} G (model : Model (S := S)) epoch ld train_mode d v d' :
  data_loop G epoch ld model train_mode d = Some (v, d') →
  out d' = out d ++
    [Print (if train_mode
            then "Epoch: " +:+ pretty epoch +:+ " Train loss: " +:+ format_4f v
            else "Test loss: " +:+ format_4f v)].
Proof.
  unfold data_loop. rewrite bind_unfold. unfold lift_fw at 1.
  destruct (iterate ld (fw d)) as [batches s1]. rewrite bind_unfold.
  destruct (data_loop_iter G model train_mode _ batches _) as [[fr d1]|] eqn:Hit;
    [|done].
  apply data_loop_iter_out in Hit. cbn [out] in Hit.
  destruct (decide (dataset_len ld = 0)); [done|].
  rewrite bind_unfold. unfold emit. cbn [mret ST_ret].
  intros [= <- <-]. cbn [out]. by rewrite Hit.
Qed.

Lemma epoch_body_out {S} G (gfp : env → ST S env) (dsm : env → ST S mat)
    trl tel (model : Model (S := S)) epoch d d' :
  epoch_body G gfp dsm trl tel model epoch d = Some ((), d') →
  ∃ evs, epoch_events epoch evs ∧ out d' = out d ++ evs.
Proof.
  unfold epoch_body. intros Hrun.
  apply bind_inv in Hrun as (v1 & d1 & H1 & Hrun).
  apply bind_inv in Hrun as (v2 & d2 & H2 & Hrun).
  apply data_loop_out in H1. apply data_loop_out in H2.
  rewrite !bind_unfold in Hrun. unfold emit, lift_fw in Hrun.
  cbn [fw out] in Hrun. rewrite !bind_unfold in Hrun. cbn [fw out] in Hrun.
  destruct (plot_image_from_latent G gfp dsm batch_size (fw d2)) as [[img s3]|];
    [|done].
  injection Hrun as <-. cbn [out]. rewrite H2, H1, <- !app_assoc. cbn [app].
  eexists. split; [|reflexivity]. by exists v1, v2, ((λ m, [m]) <$> img).
Qed.

Lemma epoch_loop_out {S} G (gfp : env → ST S env) (dsm : env → ST S mat)
    trl tel (model : Model (S := S)) es :
  ∀ d d', epoch_loop G gfp dsm trl tel model es d = Some ((), d') →
    ∃ chunks, Forall2 epoch_events es chunks ∧ out d' = out d ++ concat chunks.
Proof.
  induction es as [|e es IH]; intros d d' Hrun.
  - injection Hrun as <-. exists []. split; [constructor|]. by rewrite app_nil_r.
  - cbn [epoch_loop] in Hrun.
    apply bind_inv in Hrun as ([] & d1 & Hbody & Hrun).
    apply epoch_body_out in Hbody as (evs & Hevs & Hout).
    apply IH in Hrun as (chunks & Hall & Hout').
    exists (evs :: chunks). split; [by constructor|].
    rewrite Hout', Hout, <- app_assoc. done.
Qed.

(** X11: a run of the last cell that completes has written, after what
    was there, exactly five events for each of the epochs 1 to 10 in
    order: the train line and the test line, the scalars train_loss
    and test_loss carrying the very values the two lines render, and
    the image; fifty events in all. *)
Theorem main_events {S} G (gfp : env → ST S env) (dsm : env → ST S mat)
    trl tel (model : Model (S := S)) d d' :
  main G gfp dsm trl tel model d = Some ((), d') →
  ∃ chunks,
    Forall2 epoch_events [1; 2; 3; 4; 5; 6; 7; 8; 9; 10] chunks
    ∧ out d' = out d ++ concat chunks
    ∧ length (out d') = length (out d) + 50.
Proof.
  unfold main. intros Hrun.
  apply epoch_loop_out in Hrun as (chunks & Hall & Hout).
  exists chunks. split; [exact Hall|]. split; [exact Hout|].
  rewrite Hout, length_app. f_equal.
  change (seq 1 epochs) with [1; 2; 3; 4; 5; 6; 7; 8; 9; 10] in Hall.
  repeat match goal with
         | H : Forall2 _ (_ :: _) _ |- _ =>
             apply Forall2_cons_inv_l in H as (? & ? & (? & ? & ? & ->) & H & ->)
         end.
  by apply Forall2_nil_inv_l in Hall as ->.
Qed.

(** *** The data loaders *)

Lemma chunks_fuel_concat {A} bs (fuel : nat) : ∀ l : list A,
  0 < bs → length l ≤ fuel → concat (chunks_fuel fuel bs l) = l.
Proof.
  induction fuel as [|fuel IH]; intros l Hbs Hlen.
  - by destruct l; [|simpl in Hlen; lia].
  - destruct l as [|a l]; [done|].
    cbn [chunks_fuel concat]. rewrite IH; [apply take_drop|done|].
    rewrite length_drop. simpl in *. lia.
Qed.

Lemma chunks_fuel_sizes {A} bs (fuel : nat) : ∀ l : list A,
  0 < bs → Forall (λ c, 0 < length c ≤ bs) (chunks_fuel fuel bs l).
Proof.
  induction fuel as [|fuel IH]; intros l Hbs; [constructor|].
  destruct l as [|a l]; [constructor|].
  cbn [chunks_fuel]. constructor; [|by apply IH].
  rewrite length_take. simpl. lia.
Qed.

Lemma chunks_fuel_length {A} bs (fuel : nat) : ∀ l : list A,
  0 < bs → length l ≤ fuel →
  length (chunks_fuel fuel bs l) = (length l + bs - 1) / bs.
Proof.
  induction fuel as [|fuel IH]; intros l Hbs Hlen.
  - destruct l; [|simpl in Hlen; lia]. simpl.
    symmetry. apply Nat.div_small. lia.
  - destruct l as [|a l].
    { simpl. symmetry. apply Nat.div_small. lia. }
    cbn [chunks_fuel length]. rewrite IH; [|done|rewrite length_drop; simpl in *; lia].
    rewrite length_drop. cbn [length].
    destruct (decide (Datatypes.S (length l) ≤ bs)) as [Hle|Hgt].
    + replace (Datatypes.S (length l) - bs) with 0 by lia.
      rewrite (Nat.div_small (0 + bs - 1)) by lia.
      apply (Nat.div_unique _ _ 1 (Datatypes.S (length l) - 1)); lia.
    + replace (Datatypes.S (length l) + bs - 1)
        with ((Datatypes.S (length l) - bs + bs - 1) + 1 * bs) by lia.
      rewrite Nat.div_add by lia. lia.
Qed.

Lemma sum_list_concat_lengths {A} (ls : list (list A)) :
  sum_list (length <$> ls) = length (concat ls).
Proof.
  induction ls as [|l ls IH]; [done|].
  cbn. by rewrite length_app, IH.
Qed.

Lemma fmap_concat_list {A B} (f : A → B) (ls : list (list A)) :
  concat ((λ l : list A, f <$> l) <$> ls) = f <$> concat ls.
Proof.
  induction ls as [|l ls IH]; [done|].
  cbn. by rewrite fmap_app, IH.
Qed.

(** X14: one pass over a loader of cell 2 (batch size at least 1, the
    library's shuffling returning a permutation) yields every image of
    the dataset exactly once, in batches that are never empty and never
    longer than the batch size, their sizes adding up to the size of
    the dataset; the number of batches is the size divided by the
    batch size, rounded up ([k] when the size is [k] batches exactly,
    [k + 1] when a shorter batch remains: the 1875 and 313 of the
    recorded progress bars). *)
Theorem DataLoader_batches {S}
    (shuffle : S → list (mat * nat) → list (mat * nat) * S)
    (dataset : list (mat * nat)) (bs : nat) (s : S) :
  0 < bs →
  (∀ s l, (shuffle s l).1 ≡ₚ l) →
  let batches := (iterate (DataLoader shuffle dataset bs) s).1 in
  concat (fst <$> batches) ≡ₚ fst <$> dataset
  ∧ Forall (λ batch, 0 < length batch.1 ≤ bs) batches
  ∧ sum_list ((λ batch, length batch.1) <$> batches)
      = dataset_len (DataLoader shuffle dataset bs)
  ∧ length batches = (length dataset + bs - 1) / bs
  ∧ (∀ k, length dataset = bs * k → length batches = k)
  ∧ (∀ k r, 0 < r < bs → length dataset = bs * k + r → length batches = k + 1).
Proof.
  intros Hbs Hperm. cbn zeta. unfold DataLoader. cbn [iterate dataset_len].
  specialize (Hperm s dataset).
  destruct (shuffle s dataset) as [order s']. cbn [fst] in *.
  assert (Hlen : length order = length dataset) by (by rewrite Hperm).
  assert (Hcat : concat (chunks bs order) = order)
    by (by apply chunks_fuel_concat).
  assert (Himgs : fst <$> (collate <$> chunks bs order)
                  = (λ c : list (mat * nat), fst <$> c) <$> chunks bs order).
  { rewrite <- list_fmap_compose. by apply list_fmap_ext. }
  assert (Hcount : length (collate <$> chunks bs order)
                   = (length dataset + bs - 1) / bs).
  { rewrite length_fmap. unfold chunks.
    rewrite chunks_fuel_length by done. by rewrite Hlen. }
  split_and!.
  - by rewrite Himgs, fmap_concat_list, Hcat, Hperm.
  - apply Forall_fmap. eapply Forall_impl; [by apply chunks_fuel_sizes|].
    intros c Hc. cbn. by rewrite length_fmap.
  - rewrite <- list_fmap_compose.
    rewrite (list_fmap_ext _ length (chunks bs order))
      by (intros i c _; cbn; by rewrite length_fmap).
    by rewrite sum_list_concat_lengths, Hcat.
  - exact Hcount.
  - intros k Hk. rewrite Hcount, Hk.
    symmetry. apply (Nat.div_unique _ _ k (bs - 1)); lia.
  - intros k r Hr Hk. rewrite Hcount, Hk.
    symmetry. apply (Nat.div_unique _ _ (k + 1) (r - 1)); lia.
Qed.

Lemma chunks_fuel_Forall {A} (P : A → Prop) bs (fuel : nat) : ∀ l : list A,
  Forall P l → Forall (Forall P) (chunks_fuel fuel bs l).
Proof.
  induction fuel as [|fuel IH]; intros l Hl; [constructor|].
  destruct l as [|a l]; [constructor|].
  cbn [chunks_fuel]. constructor; [by apply Forall_take|].
  by apply IH, Forall_drop.
Qed.

(** X15: over a loader of cell 2 on images of 28 rows of width 28
    (batch size at least 1, shuffling a permutation), every dictionary
    a completed [data_loop] has handed to the model holds, for some
    batch size [b] between 1 and the loader's, an x of shape
    (28, b, 28) and the zero h_prev of shape (b, 100); there is one
    such dictionary per batch of the pass. *)
Theorem data_loop_inputs_well_shaped {S} (w0 : world (rng := rng)) G w1
    (shuffle : S → list (mat * nat) → list (mat * nat) * S)
    (dataset : list (mat * nat)) (bs : nat) (model : Model (S := S))
    epoch train_mode s o v d' :
  setup w0 = Some (G, w1) →
  0 < bs →
  (∀ s l, (shuffle s l).1 ≡ₚ l) →
  Forall (λ item, has_shape2 28 28 item.1) dataset →
  data_loop G epoch (logged_loader (DataLoader shuffle dataset bs))
      (recording model) train_mode {| fw := (s, []); out := o |} = Some (v, d') →
  Forall (λ inp : env,
            ∃ b xs, 0 < b ≤ bs
                    ∧ inp !! "x" = Some (VSeq xs)
                    ∧ has_shape3 28 b 28 xs
                    ∧ inp !! "h_prev" = Some (VBatch (zeros b 100)))
         (fw d').2
  ∧ length (fw d').2 = (length dataset + bs - 1) / bs.
Proof.
  intros Hs Hbs Hperm Himgs Hrun.
  destruct (setup_run w0) as (G' & w1' & Hs' & _ & _ & _ & _ & Hhid & _).
  rewrite Hs in Hs'. injection Hs' as <- <-.
  rewrite data_loop_recording in Hrun.
  destruct (data_loop G epoch _ model train_mode _) as [[v' d]|]; [|done].
  injection Hrun as <- <-. cbn [fw snd app].
  unfold DataLoader. cbn [iterate].
  specialize (Hperm s dataset).
  destruct (shuffle s dataset) as [order s']. cbn [fst] in *.
  assert (Hlen : length order = length dataset) by (by rewrite Hperm).
  rewrite <- Hperm in Himgs.
  split.
  - apply Forall_fmap, Forall_fmap.
    pose proof (chunks_fuel_sizes bs (length order) order Hbs) as Hsz.
    pose proof (chunks_fuel_Forall _ bs (length order) order Himgs) as Hsh.
    fold (chunks bs order) in Hsz, Hsh.
    induction Hsz as [|c cs [Hc1 Hc2] Hsz IH]; [constructor|].
    apply Forall_cons in Hsh as [Hc Hsh].
    constructor; [|by apply IH].
    cbn. exists (length c), (transpose01 (fst <$> c)).
    split; [done|]. unfold body_input, batch_input. cbn [fst collate].
    rewrite Hhid, length_fmap. split; [by map_lookup|]. split; [|by map_lookup].
    apply transpose01_shape; [lia|].
    split; [by rewrite length_fmap|]. by apply Forall_fmap.
  - rewrite !length_fmap. unfold chunks.
    rewrite chunks_fuel_length by done. by rewrite Hlen.
Qed.
(** *** Generation *)

Lemma generate_from_prior_run G (h_prev : mat) w :
  sample (generate_from_prior G) (<["h_prev" := VBatch h_prev]> ∅) w =
    let σ := w_store w in
    match Prior_forward σ (prior G) h_prev with
    | None => None
    | Some p =>
        match normal_rsample p (w_gen w) with
        | None => None
        | Some (z, g1) =>
            match Generator_forward σ (decoder G) z h_prev with
            | None => None
            | Some d =>
                let '(x, g2) := draw_mat bernoulli_draw (probs d) g1 in
                match Recurrence_forward σ (recurrence G) x z h_prev with
                | None => None
                | Some h =>
                    Some (<["h" := VBatch h]>
                            (<["x" := VBatch x]> (<["z" := VBatch z]>
                               (<["h_prev" := VBatch h_prev]> ∅))),
                          {| w_store := σ; w_gen := g2 |})
                end
            end
        end
    end.
Proof.
  unfold generate_from_prior. cbn [sample].
  unfold sample_atom, get_params, get_dict_values. munfold. simpl.
  map_lookup.
  destruct (Prior_forward (w_store w) (prior G) h_prev) as [p|]; [|done].
  simpl. unfold with_gen_opt.
  destruct (normal_rsample p (w_gen w)) as [[z g1]|]; [|done]. simpl.
  map_lookup.
  destruct (Generator_forward (w_store w) (decoder G) z h_prev) as [d|]; [|done].
  simpl. munfold. simpl.
  destruct (draw_mat bernoulli_draw _ g1) as [x g2]. simpl.
  map_lookup.
  destruct (Recurrence_forward (w_store w) (recurrence G) x z h_prev) as [h|];
    [|done].
  simpl. reflexivity.
Qed.

Lemma decoder_sample_mean_run G (z h_prev : mat) (w : world (rng := rng)) :
  sample_mean (decoder_dist G)
      (<["z" := VBatch z]> (<["h_prev" := VBatch h_prev]> ∅)) w =
    match Generator_forward (w_store w) (decoder G) z h_prev with
    | Some d => Some (probs d, w)
    | None => None
    end.
Proof.
  unfold sample_mean, get_params, get_dict_values. munfold.
  cbn [decoder_dist cond_var var forward mapM mbind option_bind mret option_ret].
  map_lookup.
  by destruct (Generator_forward (w_store w) (decoder G) z h_prev) as [d|].
Qed.

Lemma plot_loop_run G n : ∀ (x : list ten3) (h_prev : mat) w,
  plot_loop (sample (generate_from_prior G)) (sample_mean (decoder_dist G))
      n x (VBatch h_prev) w =
    match generate_means G (w_store w) n h_prev (w_gen w) with
    | Some (ms, g) =>
        Some (x ++ ((λ m, [m]) <$> ms), {| w_store := w_store w; w_gen := g |})
    | None => None
    end.
Proof.
  induction n as [|n IH]; intros x h_prev w.
  - cbn. rewrite app_nil_r. by destruct w.
  - cbn [plot_loop generate_means]. unfold generate_step.
    rewrite bind_unfold, generate_from_prior_run. cbn zeta.
    destruct (Prior_forward (w_store w) (prior G) h_prev) as [p|]; [|done].
    osimpl.
    destruct (normal_rsample p (w_gen w)) as [[z g1]|]; [|done].
    osimpl.
    destruct (Generator_forward (w_store w) (decoder G) z h_prev) as [d|] eqn:Hd;
      [|done].
    osimpl.
    destruct (draw_mat bernoulli_draw _ g1) as [xs g2].
    destruct (Recurrence_forward (w_store w) (recurrence G) xs z h_prev) as [h|];
      [|done].
    osimpl.
    rewrite !bind_unfold. unfold of_option. map_lookup.
    rewrite !bind_unfold, decoder_sample_mean_run. cbn [w_store w_gen].
    rewrite Hd. rewrite !bind_unfold. map_lookup.
    rewrite IH. cbn [w_store w_gen].
    destruct (generate_means G (w_store w) n h g2) as [[ms g3]|]; [|done].
    osimpl. by rewrite <- app_assoc.
Qed.

Lemma concat_singletons {A} (l : list A) : concat ((λ m, [m]) <$> l) = l.
Proof.
  induction l as [|a l IH]; [done|].
  rewrite fmap_cons. cbn [concat app]. by rewrite IH.
Qed.

(** Joining per-step tensors of one shape gives the sequence of steps. *)
Lemma cat_first_singletons (ms : ten3) n b c :
  n ≠ 0 → has_shape3 n b c ms →
  cat_first ((λ m, [m]) <$> ms) = Some ms.
Proof.
  intros Hn [Hlen Hall]. destruct ms as [|m ms]; [done|].
  unfold cat_first. rewrite fmap_cons. cbn [concat app].
  rewrite concat_singletons.
  apply Forall_cons in Hall as [Hm Hall].
  rewrite decide_True; [done|].
  eapply Forall_impl; [exact Hall|]. intros m' Hm'. by eapply has_shape2_same.
Qed.

Lemma generate_step_ok (σ : store (num := num)) n (h_prev : mat) g b :
  store_wf σ (globals_at n) → has_shape2 b 100 h_prev →
  ∃ mean h g', generate_step (globals_at n) σ h_prev g = Some (mean, h, g')
               ∧ has_shape2 b 28 mean ∧ has_shape2 b 100 h.
Proof.
  intros Hwf Hh. unfold generate_step.
  destruct (Prior_forward_ok σ n h_prev b Hwf Hh) as (p & -> & Hl & Hs).
  osimpl.
  destruct (normal_rsample_ok p g b 64 Hl Hs) as (z & g1 & -> & Hz).
  osimpl.
  destruct (Generator_forward_ok σ n z h_prev b Hwf Hz Hh) as (d & -> & Hd).
  osimpl.
  pose proof (bernoulli_draw_shape (probs d) g1 b 28 Hd) as Hx.
  destruct (draw_mat bernoulli_draw _ g1) as [x g2]. cbn [fst] in Hx.
  destruct (Recurrence_forward_ok σ n x z h_prev b Hwf Hx Hz Hh)
    as (h & -> & Hh').
  osimpl. by eexists _, _, _.
Qed.

Lemma generate_means_ok (σ : store (num := num)) n b k :
  store_wf σ (globals_at n) →
  ∀ (h_prev : mat) g,
    has_shape2 b 100 h_prev →
    ∃ ms g', generate_means (globals_at n) σ k h_prev g = Some (ms, g')
             ∧ has_shape3 k b 28 ms.
Proof.
  intros Hwf. induction k as [|k IH]; intros h_prev g Hh.
  - eexists _, _. split; [reflexivity|]. by split.
  - cbn [generate_means].
    destruct (generate_step_ok σ n h_prev g b Hwf Hh)
      as (mean & h & g1 & -> & Hm & Hh').
    osimpl.
    destruct (IH h g1 Hh') as (ms & g2 & -> & Hlen & Hall).
    osimpl. eexists _, _. split; [reflexivity|].
    split; [simpl; by rewrite Hlen|by constructor].
Qed.

(** C3: for every batch size [b], with the objects of the construction
    cells and parameters shaped as those cells made them (which holds
    right after them), [plot_image_from_latent] returns, after exactly
    28 steps through prior, decoder and recurrence, each step starting
    from the hidden state made by the step before and the first from
    zeros (this is [generate_means]); the result has shape
    (b, 28, 28), and row [t] of image [i] is row [i] of the decoder's
    mean at step [t]; the parameters are left alone. *)
Theorem plot_image_from_latent_shape (w0 : world (rng := rng)) G w1 w b :
  setup w0 = Some (G, w1) →
  store_wf (w_store w) G →
  store_wf (w_store w1) G
  ∧ ∃ ms g,
      generate_means G (w_store w) 28 (zeros b 100) (w_gen w) = Some (ms, g)
      ∧ length ms = 28
      ∧ plot_image_from_latent G (sample (generate_from_prior G))
            (sample_mean (decoder_dist G)) b w
          = Some (transpose01 ms, {| w_store := w_store w; w_gen := g |})
      ∧ has_shape3 b 28 28 (transpose01 ms)
      ∧ (∀ i t, i < b → t < 28 →
           (transpose01 ms !!! i) !!! t = (ms !!! t) !!! i).
Proof.
  intros Hs Hwf.
  split; [by eapply setup_store_wf|].
  destruct (setup_run w0) as (G' & w1' & Hs' & _ & _ & _ & _ & Hhid & _).
  rewrite Hs in Hs'. injection Hs' as <- <-.
  destruct (setup_inv w0 G w1 Hs)
    as (p0 & p1 & p2 & p3 & p4 & p5 & p6 & p7 & p8 & p9 & p10 & p11 & p12 & g
        & -> & -> & _).
  destruct (generate_means_ok _ _ b 28 Hwf (zeros b 100) (w_gen w)
              (zeros_shape _ _)) as (ms & g' & Hrun & Hms).
  exists ms, g'. split; [exact Hrun|]. split; [apply Hms|]. split.
  - unfold plot_image_from_latent. rewrite bind_unfold, Hhid.
    change t_max with 28. change h_dim with 100.
    rewrite plot_loop_run, Hrun. cbn [app].
    rewrite bind_unfold. unfold of_option.
    by rewrite (cat_first_singletons ms 28 b 28 ltac:(lia) Hms).
  - split; [by apply transpose01_shape|].
    intros i t Hi Ht. destruct Hms as [Hlen Hall].
    apply transpose01_elem; [|lia].
    destruct ms as [|m0 ms']; [simpl in *; lia|].
    apply Forall_cons in Hall as [[Hm _] _]. simpl. lia.
Qed.

(** *** Generation does not read the inference network *)

Lemma generate_means_ext G (σ σ' : store (num := num)) :
  (∀ h g, generate_step G σ h g = generate_step G σ' h g) →
  ∀ n h g, generate_means G σ n h g = generate_means G σ' n h g.
Proof.
  intros Hstep n. induction n as [|n IH]; intros h g; [done|].
  cbn [generate_means]. rewrite Hstep.
  destruct (generate_step G σ' h g) as [[[mean h'] g1]|]; [|done].
  osimpl. by rewrite IH.
Qed.

(** X13: the images [plot_image_from_latent] returns, and the state it
    leaves the generator in, do not depend on the three layers of the
    inference network (fc1, fc21, fc22 of Inference): two stores that
    agree everywhere else give the same result.  (The extractor Phi_x,
    which Inference shares with Recurrence, is read.) *)
Theorem generation_ignores_inference (w0 : world (rng := rng)) G w1 σ σ' b g :
  setup w0 = Some (G, w1) →
  (∀ l, l ∉ l_params <$> [ Inference_fc1 (encoder G); Inference_fc21 (encoder G);
                           Inference_fc22 (encoder G) ] →
        σ !!! l = σ' !!! l) →
  generate_means G σ 28 (zeros b 100) g = generate_means G σ' 28 (zeros b 100) g
  ∧ (λ r, (r.1, w_gen r.2)) <$>
      plot_image_from_latent G (sample (generate_from_prior G))
        (sample_mean (decoder_dist G)) b {| w_store := σ; w_gen := g |}
    = (λ r, (r.1, w_gen r.2)) <$>
      plot_image_from_latent G (sample (generate_from_prior G))
        (sample_mean (decoder_dist G)) b {| w_store := σ'; w_gen := g |}.
Proof.
  intros Hs Hagree.
  destruct (setup_inv w0 G w1 Hs)
    as (p0 & p1 & p2 & p3 & p4 & p5 & p6 & p7 & p8 & p9 & p10 & p11 & p12 & g0
        & -> & -> & _).
  set (n := length (w_store w0)) in *.
  assert (E : ∀ l : loc, l ≠ n + 8 → l ≠ n + 9 → l ≠ n + 10 → σ !!! l = σ' !!! l).
  { intros l H8 H9 H10. apply Hagree. cbn.
    rewrite !elem_of_cons, elem_of_nil. tauto. }
  assert (HP : ∀ h, Prior_forward σ (prior (globals_at n)) h
                    = Prior_forward σ' (prior (globals_at n)) h).
  { intros h. unfold Prior_forward, Linear_forward.
    cbn [globals_at prior Prior_fc1 Prior_fc21 Prior_fc22 l_params Linear_at].
    by rewrite (E (n + 2)), (E (n + 3)), (E (n + 4)) by lia. }
  assert (HG : ∀ z h, Generator_forward σ (decoder (globals_at n)) z h
                      = Generator_forward σ' (decoder (globals_at n)) z h).
  { intros z h. unfold Generator_forward, Phi_z_forward, Linear_forward.
    cbn [globals_at decoder Generator_fc1 Generator_fc2 Generator_fc3
         Generator_f_phi_z Phi_z_fc0 l_params Linear_at].
    by rewrite (E (n + 1)), (E (n + 5)), (E (n + 6)), (E (n + 7)) by lia. }
  assert (HR : ∀ x z h, Recurrence_forward σ (recurrence (globals_at n)) x z h
                        = Recurrence_forward σ' (recurrence (globals_at n)) x z h).
  { intros x z h.
    unfold Recurrence_forward, Phi_z_forward, Phi_x_forward, Linear_forward,
      GRUCell_forward.
    cbn [globals_at recurrence Recurrence_rnncell Recurrence_f_phi_x
         Recurrence_f_phi_z Phi_x_fc0 Phi_z_fc0 l_params Linear_at
         weight_ih weight_hh].
    by rewrite (E n), (E (n + 1)), (E (n + 11)), (E (n + 12)) by lia. }
  assert (Hmeans : ∀ k h g', generate_means (globals_at n) σ k h g'
                             = generate_means (globals_at n) σ' k h g').
  { apply generate_means_ext. intros h g'. unfold generate_step.
    rewrite HP. destruct (Prior_forward σ' _ h) as [p|]; [|done]. osimpl.
    destruct (normal_rsample p g') as [[z g1]|]; [|done]. osimpl.
    rewrite HG. destruct (Generator_forward σ' _ z h) as [d|]; [|done]. osimpl.
    destruct (draw_mat bernoulli_draw _ g1) as [x g2].
    by rewrite HR. }
  split; [apply Hmeans|].
  unfold plot_image_from_latent. rewrite !bind_unfold, !plot_loop_run.
  cbn [w_store w_gen]. rewrite Hmeans.
  destruct (generate_means (globals_at n) σ' _ _ g) as [[ms g']|]; [|done].
  rewrite !bind_unfold. unfold of_option.
  by destruct (cat_first _).
Qed.

(** *** Where the scale and the probabilities come from

    The scale returned by Prior and by Inference is, element by
    element, the softplus kernel applied to an output of the layer
    fc22, and the probabilities returned by Generator are the sigmoid
    kernel applied to an output of fc3: whatever holds of every value
    those kernels return holds of every element. *)

Lemma map2d_Forall (f : num → num) (P : num → Prop) (m : mat) :
  (∀ a, P (f a)) → Forall (Forall P) (map2d f m).
Proof.
  intros Hf. unfold map2d. apply Forall_fmap, Forall_true. intros r. simpl.
  apply Forall_fmap, Forall_true. intros a. apply Hf.
Qed.

Ltac fwd_inv H :=
  repeat match type of H with
         | context [Linear_forward ?σ ?l ?x] =>
             destruct (Linear_forward σ l x); cbn [fmap option_fmap option_map mbind option_bind] in H; [|done]
         | context [cat_last ?a ?c] =>
             destruct (cat_last a c); cbn [fmap option_fmap option_map mbind option_bind] in H; [|done]
         end.

Lemma Prior_scale_softplus σ self h_prev p (P : num → Prop) :
  (∀ a, P (softplus a)) →
  Prior_forward σ self h_prev = Some p →
  Forall (Forall P) (scale p).
Proof.
  intros HP Hrun. unfold Prior_forward in Hrun. fwd_inv Hrun.
  injection Hrun as <-. cbn [scale]. by apply map2d_Forall.
Qed.

Lemma Inference_scale_softplus σ self x h_prev q (P : num → Prop) :
  (∀ a, P (softplus a)) →
  Inference_forward σ self x h_prev = Some q →
  Forall (Forall P) (scale q).
Proof.
  intros HP Hrun. unfold Inference_forward, Phi_x_forward in Hrun. fwd_inv Hrun.
  injection Hrun as <-. cbn [scale]. by apply map2d_Forall.
Qed.

Lemma Generator_probs_sigmoid σ self z h_prev d (P : num → Prop) :
  (∀ a, P (sigmoid a)) →
  Generator_forward σ self z h_prev = Some d →
  Forall (Forall P) (probs d).
Proof.
  intros HP Hrun. unfold Generator_forward, Phi_z_forward in Hrun. fwd_inv Hrun.
  injection Hrun as <-. cbn [probs]. by apply map2d_Forall.
Qed.

(** *** The recurrence as a distribution

    Sampling the recurrence draws nothing: the dictionary gains, under
    h, what the forward pass returns on the x, z and h_prev found in
    it, and the world is left as it was. *)
Lemma Recurrence_sample_no_draw G (d : env) (x z h_prev : mat)
    (w : world (rng := rng)) :
  d !! "x" = Some (VBatch x) →
  d !! "z" = Some (VBatch z) →
  d !! "h_prev" = Some (VBatch h_prev) →
  sample_atom (recurrence_dist G) d w =
    match Recurrence_forward (w_store w) (recurrence G) x z h_prev with
    | Some h => Some (<["h" := VBatch h]> d, w)
    | None => None
    end.
Proof.
  intros Hx Hz Hh.
  unfold sample_atom, get_params, get_dict_values. munfold. simpl.
  rewrite Hx, Hz, Hh. simpl.
  by destruct (Recurrence_forward (w_store w) (recurrence G) x z h_prev) as [h|].
Qed.

End Properties.

(** * The theorems at concrete inputs *)

Import Toy ToyInputs.

Lemma toy_setup : setup toy_w0 = Some (toy_G, toy_w1).
Proof. vm_compute. reflexivity. Qed.

Lemma toy_store_wf : store_wf (w_store toy_w1) toy_G.
Proof. exact (setup_store_wf toy_w0 toy_G toy_w1 toy_setup). Qed.

Lemma toy_x_shape : has_shape2 1 28 toy_x.
Proof. split; [reflexivity|]. repeat constructor. Qed.

Lemma toy_z_shape : has_shape2 1 64 toy_z.
Proof. split; [reflexivity|]. repeat constructor. Qed.

Lemma toy_h0_shape : has_shape2 1 100 toy_h0.
Proof. apply zeros_shape. Qed.

Lemma toy_xs_shape : has_shape3 28 1 28 toy_xs.
Proof.
  split; [reflexivity|]. apply Forall_replicate.
  split; [reflexivity|]. repeat constructor.
Qed.

Lemma toy_image_shape : has_shape2 28 28 toy_image.
Proof. split; [reflexivity|]. by apply Forall_replicate. Qed.

Lemma toy_batches_shape :
  Forall (λ batch : list (list (list Z)) * list nat,
            batch.1 ≠ [] ∧ Forall (has_shape2 28 28) batch.1)
    [(toy_batch2, [1; 2]); (toy_batch1, [3])].
Proof.
  repeat constructor; try done; apply toy_image_shape.
Qed.

Lemma toy_shuffle_perm s l : (toy_shuffle s l).1 ≡ₚ l.
Proof. apply reverse_Permutation. Qed.

Lemma toy_dataset_shape : Forall (λ item, has_shape2 28 28 item.1) toy_dataset.
Proof. repeat constructor; apply toy_image_shape. Qed.

Lemma toy_main_run :
  main toy_G toy_sampler toy_mean toy_loader toy_loader toy_model toy_d0
  = Some ((), toy_main_end).
Proof. vm_compute. reflexivity. Qed.

Lemma toy_logged_run_eq : toy_logged_run = Some (toy_logged_value, toy_logged_end).
Proof. vm_compute. reflexivity. Qed.

Lemma toy_train_run_eq : toy_train_run = Some (toy_train_value, toy_train_end).
Proof. vm_compute. reflexivity. Qed.

(** On the small instance the loss of the sequence is not zero, and its
    28 steps advance the generator. *)
Lemma toy_loss_value :
  w_gen toy_w1 = 189084%N
  ∧ ARLoss_estimate (loss toy_G) toy_dict toy_w1
    = Some (2653024%Z, {| w_store := w_store toy_w1; w_gen := 190876%N |}).
Proof. split; vm_compute; reflexivity. Qed.

Lemma ARLoss_sums_step_losses_witness :
  setup toy_w0 = Some (toy_G, toy_w1)
  ∧ store_wf (w_store toy_w1) toy_G
  ∧ toy_dict !! "x" = Some (VSeq toy_xs)
  ∧ toy_dict !! "h_prev" = Some (VBatch toy_h0)
  ∧ has_shape3 28 1 28 toy_xs
  ∧ has_shape2 1 100 toy_h0
  ∧ (∃ ls g,
       step_losses toy_G (w_store toy_w1) toy_xs toy_h0 (w_gen toy_w1) = Some (ls, g)
       ∧ length ls = 28
       ∧ ARLoss_estimate (loss toy_G) toy_dict toy_w1 =
           Some (foldl nadd nzero ls, {| w_store := w_store toy_w1; w_gen := g |}))
  ∧ ARLoss_estimate (loss toy_G) toy_dict toy_w1
    = Some (2653024%Z, {| w_store := w_store toy_w1; w_gen := 190876%N |}).
Proof.
  assert (H1 : toy_dict !! "x" = Some (VSeq toy_xs)) by reflexivity.
  assert (H2 : toy_dict !! "h_prev" = Some (VBatch toy_h0)) by reflexivity.
  pose proof (ARLoss_sums_step_losses toy_w0 toy_G toy_w1 toy_dict toy_xs toy_h0
                toy_w1 1 toy_setup toy_store_wf H1 H2 toy_xs_shape toy_h0_shape)
    as (_ & H).
  exact (conj toy_setup (conj toy_store_wf (conj H1 (conj H2
           (conj toy_xs_shape (conj toy_h0_shape
              (conj H (proj2 toy_loss_value)))))))).
Defined.


Lemma plot_image_from_latent_shape_witness :
  setup toy_w0 = Some (toy_G, toy_w1)
  ∧ store_wf (w_store toy_w1) toy_G
  ∧ ∃ ms g,
      plot_image_from_latent toy_G (sample (generate_from_prior toy_G))
          (sample_mean (decoder_dist toy_G)) 2 toy_w1
        = Some (transpose01 ms, {| w_store := w_store toy_w1; w_gen := g |})
      ∧ has_shape3 2 28 28 (transpose01 ms).
Proof.
  pose proof (plot_image_from_latent_shape toy_w0 toy_G toy_w1 toy_w1 2
                toy_setup toy_store_wf) as (_ & ms & g & _ & _ & Hplot & Hsh & _).
  exact (conj toy_setup (conj toy_store_wf
           (ex_intro _ ms (ex_intro _ g (conj Hplot Hsh))))).
Defined.

Lemma sequence_batch_shape_witness :
  Forall (λ batch : list (list (list Z)) * list nat,
            batch.1 ≠ [] ∧ Forall (has_shape2 28 28) batch.1)
    (iterate toy_loader 5%Z).1
  ∧ toy_train_run = Some (toy_train_value, toy_train_end)
  ∧ ∃ inps,
      (fw toy_train_end).2 = [] ++ inps
      ∧ Forall2 (λ (batch : list (list (list Z)) * list nat)
                   (inp : gmap string value),
                   inp !! "x" = Some (VSeq (transpose01 batch.1))
                   ∧ has_shape3 28 (length batch.1) 28 (transpose01 batch.1)
                   ∧ (∀ t i, t < 28 → i < length batch.1 →
                        (transpose01 batch.1 !!! t) !!! i = (batch.1 !!! i) !!! t))
                (iterate toy_loader 5%Z).1 inps.
Proof.
  pose proof (sequence_batch_shape toy_G toy_model toy_loader 1 true 5%Z [] []
                toy_train_value toy_train_end toy_batches_shape toy_train_run_eq)
    as (_ & _ & _ & _ & _ & H).
  exact (conj toy_batches_shape (conj toy_train_run_eq H)).
Defined.

Lemma data_loop_weighted_mean_witness :
  setup toy_w0 = Some (toy_G, toy_w1)
  ∧ dataset_len toy_loader ≠ 0
  ∧ run_batches toy_model true (iterate toy_loader 5%Z).1 (iterate toy_loader 5%Z).2
      = Some ([(5%Z, 2); (6%Z, 1)], 7%Z)
  ∧ data_loop toy_G 1 toy_loader toy_model true {| fw := 5%Z; out := [] |}
      = Some (5%Z, {| fw := 7%Z; out := [Print "Epoch: 1 Train loss: 5.0000"] |})
  ∧ ∃ evs,
      epochs_logged toy_model
        (plot_image_from_latent toy_G toy_sampler toy_mean batch_size)
        toy_loader toy_loader [1; 2; 3; 4; 5; 6; 7; 8; 9; 10]
        (fw toy_d0) evs (fw toy_main_end)
      ∧ out toy_main_end = out toy_d0 ++ evs.
Proof.
  assert (H1 : dataset_len toy_loader ≠ 0) by (simpl; lia).
  assert (H2 : run_batches toy_model true (iterate toy_loader 5%Z).1
                 (iterate toy_loader 5%Z).2 = Some ([(5%Z, 2); (6%Z, 1)], 7%Z))
    by reflexivity.
  pose proof (data_loop_weighted_mean toy_w0 toy_G toy_w1 toy_model toy_loader 1
                true 5%Z [] _ _ toy_setup H1 H2) as H.
  cbv zeta in H. destruct H as (H & Hmain).
  exact (conj toy_setup (conj H1 (conj H2 (conj H
           (Hmain toy_sampler toy_mean toy_loader toy_loader toy_d0 toy_main_end
              toy_main_run))))).
Defined.



(** ** The further properties at concrete inputs *)

Lemma setup_appends_witness :
  setup toy_w0 = Some (toy_G, toy_w1)
  ∧ Forall (λ l, length (w_store toy_w0) ≤ l < length (w_store toy_w1))
      (param_locs toy_G).
Proof.
  pose proof (setup_appends toy_w0 toy_G toy_w1 toy_setup) as (_ & _ & H).
  exact (conj toy_setup H).
Defined.

Lemma setup_locations_distinct_witness :
  setup toy_w0 = Some (toy_G, toy_w1) ∧ NoDup (param_locs toy_G).
Proof.
  pose proof (setup_locations_distinct toy_w0 toy_G toy_w1 toy_setup) as (H & _).
  exact (conj toy_setup H).
Defined.

Lemma setup_shapes_witness :
  setup toy_w0 = Some (toy_G, toy_w1) ∧ store_wf (w_store toy_w1) toy_G.
Proof.
  pose proof (setup_shapes toy_w0 toy_G toy_w1 toy_setup) as (H & _).
  exact (conj toy_setup H).
Defined.

Lemma forward_sizes_fit_witness :
  setup toy_w0 = Some (toy_G, toy_w1)
  ∧ store_wf (w_store toy_w1) toy_G
  ∧ has_shape2 1 28 toy_x ∧ has_shape2 1 64 toy_z ∧ has_shape2 1 100 toy_h0
  ∧ (∃ d, Generator_forward (w_store toy_w1) (decoder toy_G) toy_z toy_h0 = Some d
          ∧ has_shape2 1 28 (probs d))
  ∧ (∃ h, Recurrence_forward (w_store toy_w1) (recurrence toy_G) toy_x toy_z toy_h0
            = Some h
          ∧ has_shape2 1 100 h).
Proof.
  pose proof (forward_sizes_fit toy_w0 toy_G toy_w1 (w_store toy_w1) toy_x toy_z
                toy_h0 1 toy_setup toy_store_wf toy_x_shape toy_z_shape
                toy_h0_shape) as (_ & _ & Hg & Hr).
  exact (conj toy_setup (conj toy_store_wf (conj toy_x_shape
           (conj toy_z_shape (conj toy_h0_shape (conj Hg Hr)))))).
Defined.

Lemma loss_raises_on_size_mismatch_witness :
  setup toy_w0 = Some (toy_G, toy_w1)
  ∧ store_wf (w_store toy_w1) toy_G
  ∧ toy_bad_dict !! "x" = Some (VSeq toy_xs)
  ∧ toy_bad_dict !! "h_prev" = Some (VBatch (zeros 2 100))
  ∧ toy_xs !! 0 = Some toy_x
  ∧ (¬ Forall (λ r, length r = 28) toy_x
     ∨ length toy_x ≠ length (zeros 2 100 : list (list Z))
     ∨ ¬ Forall (λ r, length r = 100) (zeros 2 100 : list (list Z)))
  ∧ ARLoss_estimate (loss toy_G) toy_bad_dict toy_w1 = None.
Proof.
  assert (H1 : toy_bad_dict !! "x" = Some (VSeq toy_xs)) by reflexivity.
  assert (H2 : toy_bad_dict !! "h_prev" = Some (VBatch (zeros 2 100)))
    by reflexivity.
  assert (H3 : toy_xs !! 0 = Some toy_x) by reflexivity.
  assert (H4 : ¬ Forall (λ r, length r = 28) toy_x
               ∨ length toy_x ≠ length (zeros 2 100 : list (list Z))
               ∨ ¬ Forall (λ r, length r = 100) (zeros 2 100 : list (list Z))).
  { right. left. simpl. lia. }
  exact (conj toy_setup (conj toy_store_wf (conj H1 (conj H2 (conj H3 (conj H4
           (loss_raises_on_size_mismatch toy_w0 toy_G toy_w1 toy_bad_dict toy_xs
              toy_x (zeros 2 100) toy_w1 toy_setup toy_store_wf H1 H2 H3 H4))))))).
Defined.

Lemma vrnn_step_fn_reads_x_h_prev_witness :
  dom toy_step_dict ⊆ step_names
  ∧ dom (<["h" := VBatch toy_h0]> toy_step_dict) ⊆ step_names
  ∧ (toy_step_dict !! "x") = (<["h" := VBatch toy_h0]> toy_step_dict !! "x")
  ∧ (toy_step_dict !! "h_prev")
    = (<["h" := VBatch toy_h0]> toy_step_dict !! "h_prev")
  ∧ vrnn_step_fn toy_G 0 toy_step_dict toy_w1
    = vrnn_step_fn toy_G 5 (<["h" := VBatch toy_h0]> toy_step_dict) toy_w1.
Proof.
  assert (H1 : dom toy_step_dict ⊆ step_names).
  { unfold toy_step_dict, step_names. rewrite !dom_insert_L. set_solver. }
  assert (H2 : dom (<["h" := VBatch toy_h0]> toy_step_dict) ⊆ step_names).
  { unfold toy_step_dict, step_names. rewrite !dom_insert_L. set_solver. }
  assert (H3 : (toy_step_dict !! "x")
               = (<["h" := VBatch toy_h0]> toy_step_dict !! "x")) by reflexivity.
  assert (H4 : (toy_step_dict !! "h_prev")
               = (<["h" := VBatch toy_h0]> toy_step_dict !! "h_prev"))
    by reflexivity.
  pose proof (vrnn_step_fn_reads_x_h_prev toy_G 0 5 toy_step_dict
                (<["h" := VBatch toy_h0]> toy_step_dict) toy_w1 H1 H2 H3 H4) as H.
  exact (conj H1 (conj H2 (conj H3 (conj H4 H)))).
Defined.

Lemma data_loop_calls_one_entry_point_witness :
  (if true then train toy_model else test toy_model)
    = (if true then train toy_train_only else test toy_train_only)
  ∧ data_loop toy_G 1 toy_loader toy_model true toy_d0
    = data_loop toy_G 1 toy_loader toy_train_only true toy_d0.
Proof.
  assert (H1 : (if true then train toy_model else test toy_model)
               = (if true then train toy_train_only else test toy_train_only))
    by reflexivity.
  exact (conj H1 (data_loop_calls_one_entry_point toy_G toy_model toy_train_only
                    1 toy_loader true toy_d0 H1)).
Defined.

Lemma data_loop_raises_iff_witness :
  setup toy_w0 = Some (toy_G, toy_w1)
  ∧ (data_loop toy_G 1 toy_loader toy_train_only false {| fw := 0%Z; out := [] |}
       = None
     ↔ run_batches toy_train_only false (iterate toy_loader 0%Z).1
         (iterate toy_loader 0%Z).2 = None
       ∨ dataset_len toy_loader = 0).
Proof.
  exact (conj toy_setup
           (data_loop_raises_iff toy_w0 toy_G toy_w1 toy_train_only toy_loader 1
              false 0%Z [] toy_setup)).
Defined.

Lemma main_events_witness :
  main toy_G toy_sampler toy_mean toy_loader toy_loader toy_model toy_d0
    = Some ((), toy_main_end)
  ∧ length (out toy_main_end) = length (out toy_d0) + 50.
Proof.
  pose proof (main_events toy_G toy_sampler toy_mean toy_loader toy_loader
                toy_model toy_d0 toy_main_end toy_main_run) as (chunks & _ & _ & H).
  exact (conj toy_main_run H).
Defined.

Lemma transpose01_involutive_witness :
  2 ≠ 0 ∧ 28 ≠ 0
  ∧ has_shape3 2 28 28 toy_batch2
  ∧ transpose01 (transpose01 toy_batch2) = toy_batch2.
Proof.
  assert (H1 : 2 ≠ 0) by lia.
  assert (H2 : 28 ≠ 0) by lia.
  assert (H3 : has_shape3 2 28 28 toy_batch2).
  { split; [reflexivity|]. repeat constructor; apply toy_image_shape. }
  exact (conj H1 (conj H2 (conj H3
           (transpose01_involutive 2 28 28 toy_batch2 H1 H2 H3)))).
Defined.

Lemma generation_ignores_inference_witness :
  setup toy_w0 = Some (toy_G, toy_w1)
  ∧ (∀ l, l ∉ l_params <$> [ Inference_fc1 (encoder toy_G);
                             Inference_fc21 (encoder toy_G);
                             Inference_fc22 (encoder toy_G) ] →
          w_store toy_w1 !!! l
          = <[8 := {| weight := []; bias := [] |}]> (w_store toy_w1) !!! l)
  ∧ generate_means toy_G (w_store toy_w1) 28 (zeros 2 100) 0%N
    = generate_means toy_G
        (<[8 := {| weight := []; bias := [] |}]> (w_store toy_w1)) 28
        (zeros 2 100) 0%N.
Proof.
  assert (H1 : ∀ l, l ∉ l_params <$> [ Inference_fc1 (encoder toy_G);
                                       Inference_fc21 (encoder toy_G);
                                       Inference_fc22 (encoder toy_G) ] →
               w_store toy_w1 !!! l
               = <[8 := {| weight := []; bias := [] |}]> (w_store toy_w1) !!! l).
  { intros l Hl. symmetry. apply list_lookup_total_insert_ne.
    intros <-. apply Hl. cbn. rewrite elem_of_cons. by left. }
  pose proof (generation_ignores_inference toy_w0 toy_G toy_w1 (w_store toy_w1)
                (<[8 := {| weight := []; bias := [] |}]> (w_store toy_w1)) 2 0%N
                toy_setup H1) as (H & _).
  exact (conj toy_setup (conj H1 H)).
Defined.

Lemma DataLoader_batches_witness :
  0 < 2
  ∧ (∀ s l, (toy_shuffle s l).1 ≡ₚ l)
  ∧ length (iterate (DataLoader toy_shuffle toy_dataset 2) 0%Z).1 = 1 + 1.
Proof.
  assert (H1 : 0 < 2) by lia.
  pose proof (DataLoader_batches toy_shuffle toy_dataset 2 0%Z H1 toy_shuffle_perm)
    as H.
  cbv zeta in H. destruct H as (_ & _ & _ & _ & _ & H).
  exact (conj H1 (conj toy_shuffle_perm (H 1 1 ltac:(lia) ltac:(reflexivity)))).
Defined.

Lemma data_loop_inputs_well_shaped_witness :
  setup toy_w0 = Some (toy_G, toy_w1)
  ∧ 0 < 2
  ∧ (∀ s l, (toy_shuffle s l).1 ≡ₚ l)
  ∧ Forall (λ item, has_shape2 28 28 item.1) toy_dataset
  ∧ toy_logged_run = Some (toy_logged_value, toy_logged_end)
  ∧ length (fw toy_logged_end).2 = (length toy_dataset + 2 - 1) / 2.
Proof.
  assert (H1 : 0 < 2) by lia.
  pose proof (data_loop_inputs_well_shaped toy_w0 toy_G toy_w1 toy_shuffle
                toy_dataset 2 toy_model 1 false 0%Z [] toy_logged_value
                toy_logged_end toy_setup H1 toy_shuffle_perm toy_dataset_shape
                toy_logged_run_eq) as (_ & H).
  exact (conj toy_setup (conj H1 (conj toy_shuffle_perm
           (conj toy_dataset_shape (conj toy_logged_run_eq H))))).
Defined.
